(** * The HTTP image-scoring client of the deployment notebook

    A shallow embedding of [score_image_with_http]
    (samples/deployment/deployment.ipynb) and of the parts of the Python
    runtime the function calls: [base64.b64encode], [bytes.__repr__] behind
    [str.format], [json.dumps], [json.loads], the [with open(...)] block
    and [requests.post].  The notebook runs on a Python 3 kernel; the
    library functions follow CPython 3.6 with its C accelerators, which is
    what [import json] and [import base64] load.  Dictionaries keep their
    insertion order, as they do from that version on. *)

From Stdlib Require Import List Bool Arith NArith ZArith Lia.
From Stdlib Require Import Ascii String DecimalString.
From Stdlib Require Import Strings.Byte.
Import ListNotations.

Local Open Scope N_scope.
Set Warnings "-register-all".


(** * Part I: the program *)

(** ** Text and bytes *)

(** A Python [str] is a sequence of code points, a [bytes] object a
    sequence of octets. *)
Definition str := list N.
Definition bytes := list byte.

(** [lit "abc"] is the [str] written ['abc'] in the source. *)
Definition lit (s : string) : str := map N_of_ascii (list_ascii_of_string s).

(** [ch "a"] is the code point of a character literal. *)
Definition ch (a : ascii) : N := N_of_ascii a.

Definition DQUOTE : N := 34.
Definition BACKSLASH : N := 92.

(** [jlit] is [lit] for texts that hold double quotes: a backquote in the
    literal stands for a double quote. *)
Definition jlit (s : string) : str :=
  map (fun c => if c =? ch "`" then DQUOTE else c) (lit s).

(** [N] to octet, as a C cast to [unsigned char]. *)
Definition byte_of_N (n : N) : byte :=
  match Byte.of_N (n mod 256) with
  | Some b => b
  | None => x00
  end.

(** The octets of a [bytes] object as code points (what
    [bytes.decode('latin-1')] gives, and ['ascii'] on ASCII octets). *)
Definition decode_ascii (b : bytes) : str := map Byte.to_N b.

Definition hexdigits : str := lit "0123456789abcdef".

Definition hexdigit (n : N) : N := nth (N.to_nat n) hexdigits 0.

(** [sep.join(parts)]. *)
Fixpoint join (sep : str) (parts : list str) : str :=
  match parts with
  | [] => []
  | [p] => p
  | p :: ps => p ++ sep ++ join sep ps
  end.

(** [s.startswith(p)], returning what follows the prefix. *)
Fixpoint strip_prefix (p s : str) : option str :=
  match p, s with
  | [], _ => Some s
  | x :: p', y :: s' => if x =? y then strip_prefix p' s' else None
  | _ :: _, [] => None
  end.

(** ** Values and exceptions *)

(** The Python values the function handles.  A float is given by a decimal
    literal that denotes it ([json.loads] keeps the literal it read): the
    function never computes with one. *)
Inductive pyval : Type :=
| PNone
| PBool (b : bool)
| PInt (z : Z)
| PFloat (literal : str)
| PStr (s : str)
| PList (items : list pyval)
| PDict (items : list (str * pyval)).

(** The exceptions that can be raised while the function runs.  The
    message of a [JSONDecodeError] is dropped: the function never reads
    it. *)
Inductive exn : Type :=
| OSError (msg : str)
| RequestException (msg : str)
| JSONDecodeError
| RecursionError
| TypeError
| KeyError
| IndexError
| binascii_Error
| ValueError (msg : str).

(** A computation that returns or raises. *)
Definition outcome (A : Type) : Type := (exn + A)%type.

(** [o[0]]: the first item of a list, the first character of a [str];
    a dict is looked up at the key [0], which no dict with [str] keys
    holds; the other values cannot be subscripted. *)
Definition getitem0 (o : pyval) : outcome pyval :=
  match o with
  | PList (x :: _) => inr x
  | PList [] => inl IndexError
  | PStr (c :: _) => inr (PStr [c])
  | PStr [] => inl IndexError
  | PDict _ => inl KeyError
  | PNone | PBool _ | PInt _ | PFloat _ => inl TypeError
  end.

(** [d[k] = v] on the items of a dict: an existing key keeps its place. *)
Fixpoint dict_setitem (d : list (str * pyval)) (k : str) (v : pyval)
  : list (str * pyval) :=
  match d with
  | [] => [(k, v)]
  | (k', v') :: d' =>
      if list_eq_dec N.eq_dec k' k then (k', v) :: d'
      else (k', v') :: dict_setitem d' k v
  end.

(** ** base64 *)

Module Base64.

(** [table_b2a_base64]: the 64 characters of the standard alphabet. *)
Definition table_b2a_base64 : list N :=
  lit "ABCDEFGHIJKLMNOPQRSTUVWXYZabcdefghijklmnopqrstuvwxyz0123456789+/".

Definition BASE64_PAD : N := ch "=".

Definition b2a (i : N) : byte := byte_of_N (nth (N.to_nat i) table_b2a_base64 0).

(** [binascii.b2a_base64(s, newline=False)], three octets at a time. *)
Fixpoint b2a_base64 (s : list N) : bytes :=
  match s with
  | [] => []
  | [x] =>
      [b2a (N.shiftr x 2); b2a (N.shiftl (N.land x 3) 4);
       byte_of_N BASE64_PAD; byte_of_N BASE64_PAD]
  | [x; y] =>
      [b2a (N.shiftr x 2);
       b2a (N.lor (N.shiftl (N.land x 3) 4) (N.shiftr y 4));
       b2a (N.shiftl (N.land y 15) 2);
       byte_of_N BASE64_PAD]
  | x :: y :: z :: rest =>
      b2a (N.shiftr x 2)
      :: b2a (N.lor (N.shiftl (N.land x 3) 4) (N.shiftr y 4))
      :: b2a (N.lor (N.shiftl (N.land y 15) 2) (N.shiftr z 6))
      :: b2a (N.land z 63)
      :: b2a_base64 rest
  end.

(** [base64.b64encode(s)]: bytes in, bytes out, no line breaks. *)
Definition b64encode (s : bytes) : bytes := b2a_base64 (map Byte.to_N s).

(** [table_a2b_base64]: the value of an alphabet character; the pad
    character has an entry too (value 0), other characters have none. *)
Definition table_a2b_base64 (c : N) : option N :=
  if (ch "A" <=? c) && (c <=? ch "Z") then Some (c - ch "A")
  else if (ch "a" <=? c) && (c <=? ch "z") then Some (c - ch "a" + 26)
  else if (ch "0" <=? c) && (c <=? ch "9") then Some (c - ch "0" + 52)
  else if c =? ch "+" then Some 62
  else if c =? ch "/" then Some 63
  else if c =? BASE64_PAD then Some 0
  else None.

(** [binascii_find_valid(s, slen, num)]: the [num]-th (from 0) character
    of [s] that has a table entry, if any. *)
Fixpoint binascii_find_valid (s : list N) (num : nat) : option N :=
  match s with
  | [] => None
  | c :: s' =>
      if (c <=? 127)
         && (match table_a2b_base64 c with Some _ => true | None => false end)
      then match num with
           | O => Some c
           | S num' => binascii_find_valid s' num'
           end
      else binascii_find_valid s' num
  end.

(** The loop of [binascii.a2b_base64]: characters outside the alphabet are
    skipped, a pad ends the input once a group holds two characters or
    more; [None] is the error "Incorrect padding". *)
Fixpoint a2b_loop (ascii_data : list N) (quad_pos leftchar leftbits : N)
  : option bytes :=
  match ascii_data with
  | [] => if leftbits =? 0 then Some [] else None
  | this_ch :: rest =>
      if (127 <? this_ch) || (this_ch =? 13) || (this_ch =? 10) || (this_ch =? ch " ")
      then a2b_loop rest quad_pos leftchar leftbits
      else if this_ch =? BASE64_PAD then
        if (quad_pos <? 2)
           || ((quad_pos =? 2)
               && negb (match binascii_find_valid ascii_data 1 with
                        | Some c => c =? BASE64_PAD
                        | None => false
                        end))
        then a2b_loop rest quad_pos leftchar leftbits
        else Some []
      else
        match table_a2b_base64 this_ch with
        | None => a2b_loop rest quad_pos leftchar leftbits
        | Some v =>
            let quad_pos := N.land (quad_pos + 1) 3 in
            let leftchar := N.lor (N.shiftl leftchar 6) v in
            let leftbits := leftbits + 6 in
            if 8 <=? leftbits then
              let leftbits := leftbits - 8 in
              option_map
                (cons (byte_of_N (N.land (N.shiftr leftchar leftbits) 255)))
                (a2b_loop rest quad_pos
                          (N.land leftchar (N.shiftl 1 leftbits - 1)) leftbits)
            else a2b_loop rest quad_pos leftchar leftbits
        end
  end.

Definition a2b_base64 (data : list N) : option bytes := a2b_loop data 0 0 0.

(** [base64.b64decode(s)] on a [str]: the text must be ASCII
    ([ValueError] otherwise), then [binascii.a2b_base64]. *)
Definition b64decode (s : str) : outcome bytes :=
  if forallb (fun c => c <=? 127) s then
    match a2b_base64 s with
    | Some b => inr b
    | None => inl binascii_Error
    end
  else inl (ValueError (lit "string argument should contain only ASCII characters")).

(** The characters a base64 text is made of. *)
Definition b64char (c : N) : bool :=
  match table_a2b_base64 c with Some _ => true | None => false end.

End Base64.

(** ** [repr] of a bytes object *)

(** [bytes.__repr__]: [b'...'], with double quotes instead when the
    octets hold a single quote and no double quote; the quote and the
    backslash are escaped, and so are the octets outside printable
    ASCII. *)
Definition bytes_repr (b : bytes) : str :=
  let s := decode_ascii b in
  let quote :=
    if existsb (N.eqb (ch "'")) s && negb (existsb (N.eqb DQUOTE) s)
    then DQUOTE else ch "'" in
  [ch "b"; quote]
  ++ flat_map
       (fun c =>
          if (c =? quote) || (c =? BACKSLASH) then [BACKSLASH; c]
          else if c =? 9 then [BACKSLASH; ch "t"]
          else if c =? 10 then [BACKSLASH; ch "n"]
          else if c =? 13 then [BACKSLASH; ch "r"]
          else if (c <? ch " ") || (127 <=? c)
               then [BACKSLASH; ch "x";
                     hexdigit (N.shiftr (N.land c 240) 4); hexdigit (N.land c 15)]
               else [c])
       s
  ++ [quote].

(** ["{0}".format(v)] for a bytes object [v]: [bytes] has no [__format__]
    of its own, so the field is [str(v)], which is [repr(v)]. *)
Definition format_0 (v : bytes) : str := bytes_repr v.

(** ** [json.dumps] *)

Module JSONEncoder.

(** Four lower-case hex digits. *)
Definition hex4 (n : N) : str :=
  [hexdigit (N.land (N.shiftr n 12) 15); hexdigit (N.land (N.shiftr n 8) 15);
   hexdigit (N.land (N.shiftr n 4) 15); hexdigit (N.land n 15)].

(** One character of [encode_basestring_ascii]: printable ASCII goes
    through, the quote, the backslash and five control characters have a
    short escape, everything else is written [\uXXXX], as a surrogate pair
    above the basic plane. *)
Definition ascii_escape_unichar (c : N) : str :=
  if (ch " " <=? c) && (c <=? ch "~") && negb (c =? BACKSLASH) && negb (c =? DQUOTE)
  then [c]
  else if c =? BACKSLASH then [BACKSLASH; BACKSLASH]
  else if c =? DQUOTE then [BACKSLASH; DQUOTE]
  else if c =? 8 then [BACKSLASH; ch "b"]
  else if c =? 12 then [BACKSLASH; ch "f"]
  else if c =? 10 then [BACKSLASH; ch "n"]
  else if c =? 13 then [BACKSLASH; ch "r"]
  else if c =? 9 then [BACKSLASH; ch "t"]
  else if 65536 <=? c then
    [BACKSLASH; ch "u"] ++ hex4 (55296 - 64 + N.shiftr c 10)
    ++ [BACKSLASH; ch "u"] ++ hex4 (56320 + N.land c 1023)
  else [BACKSLASH; ch "u"] ++ hex4 c.

Definition encode_basestring_ascii (s : str) : str :=
  [DQUOTE] ++ flat_map ascii_escape_unichar s ++ [DQUOTE].

(** [int.__repr__]. *)
Definition int_repr (z : Z) : str := lit (NilZero.string_of_int (Z.to_int z)).

Section Dumps.

(** [floatstr]: the text the encoder writes for the float a literal
    denotes ([float.__repr__], and [NaN], [Infinity], [-Infinity]).  It
    needs binary64 arithmetic and is left open. *)
Variable floatstr : str -> str.

(** [json.dumps(o)] with the default separators, for values built from
    [None], booleans, numbers, strings, lists and dicts with [str] keys. *)
Fixpoint dumps (o : pyval) : str :=
  match o with
  | PNone => lit "null"
  | PBool true => lit "true"
  | PBool false => lit "false"
  | PInt z => int_repr z
  | PFloat l => floatstr l
  | PStr s => encode_basestring_ascii s
  | PList items => lit "[" ++ join (lit ", ") (map dumps items) ++ lit "]"
  | PDict items =>
      lit "{"
      ++ join (lit ", ")
           (map (fun kv => encode_basestring_ascii (fst kv) ++ lit ": " ++ dumps (snd kv))
                items)
      ++ lit "}"
  end.

End Dumps.

End JSONEncoder.

(** ** [json.loads] *)

Module JSONDecoder.

Definition is_ws (c : N) : bool :=
  (c =? ch " ") || (c =? 9) || (c =? 10) || (c =? 13).

(** [WHITESPACE.match(s, end).end()]. *)
Fixpoint skip_ws (s : str) : str :=
  match s with
  | c :: r => if is_ws c then skip_ws r else s
  | [] => []
  end.

Definition is_digit (c : N) : bool := (ch "0" <=? c) && (c <=? ch "9").

Definition hexval (c : N) : option N :=
  if is_digit c then Some (c - ch "0")
  else if (ch "a" <=? c) && (c <=? ch "f") then Some (c - ch "a" + 10)
  else if (ch "A" <=? c) && (c <=? ch "F") then Some (c - ch "A" + 10)
  else None.

(** The four hex digits of a [\uXXXX] escape. *)
Definition decode_uXXXX (a b c d : N) : option N :=
  match hexval a, hexval b, hexval c, hexval d with
  | Some a, Some b, Some c, Some d =>
      Some (N.lor (N.shiftl (N.lor (N.shiftl (N.lor (N.shiftl a 4) b) 4) c) 4) d)
  | _, _, _, _ => None
  end.

Definition is_high_surrogate (c : N) : bool := (55296 <=? c) && (c <=? 56319).
Definition is_low_surrogate (c : N) : bool := (56320 <=? c) && (c <=? 57343).

Definition join_surrogates (hi lo : N) : N :=
  65536 + N.lor (N.shiftl (N.land hi 1023) 10) (N.land lo 1023).

(** The one-character escapes. *)
Definition backslash_escape (c : N) : option N :=
  if c =? DQUOTE then Some DQUOTE
  else if c =? BACKSLASH then Some BACKSLASH
  else if c =? ch "/" then Some (ch "/")
  else if c =? ch "b" then Some 8
  else if c =? ch "f" then Some 12
  else if c =? ch "n" then Some 10
  else if c =? ch "r" then Some 13
  else if c =? ch "t" then Some 9
  else None.

Definition cons_chr (c : N) (r : option (str * str)) : option (str * str) :=
  match r with
  | Some (v, rest) => Some (c :: v, rest)
  | None => None
  end.

(** [scanstring(s, end, strict=True)], from the character after the
    opening quote: the decoded string and what follows the closing quote.
    [None] is a [JSONDecodeError] (unterminated string, control character,
    bad escape). *)
Fixpoint scanstring (s : str) : option (str * str) :=
  match s with
  | [] => None
  | c :: rest =>
      if c =? DQUOTE then Some ([], rest)
      else if c =? BACKSLASH then
        match rest with
        | [] => None
        | esc :: rest1 =>
            if esc =? ch "u" then
              match rest1 with
              | h1 :: h2 :: h3 :: h4 :: rest2 =>
                  match decode_uXXXX h1 h2 h3 h4 with
                  | None => None
                  | Some uni =>
                      match rest2 with
                      | b :: u :: g1 :: g2 :: g3 :: g4 :: rest3 =>
                          if is_high_surrogate uni && (b =? BACKSLASH) && (u =? ch "u")
                          then
                            match decode_uXXXX g1 g2 g3 g4 with
                            | None => None
                            | Some uni2 =>
                                if is_low_surrogate uni2
                                then cons_chr (join_surrogates uni uni2) (scanstring rest3)
                                else cons_chr uni (scanstring rest2)
                            end
                          else cons_chr uni (scanstring rest2)
                      | _ => cons_chr uni (scanstring rest2)
                      end
                  end
              | _ => None
              end
            else
              match backslash_escape esc with
              | Some c' => cons_chr c' (scanstring rest1)
              | None => None
              end
        end
      else if c <=? 31 then None
      else cons_chr c (scanstring rest)
  end.

(** The longest run of ASCII digits at the head of [s]. *)
Fixpoint span_digits (s : str) : str * str :=
  match s with
  | c :: r =>
      if is_digit c then let (ds, r') := span_digits r in (c :: ds, r')
      else ([], s)
  | [] => ([], [])
  end.

Definition int_of_digits (ds : str) : Z :=
  fold_left (fun acc c => (acc * 10 + Z.of_N (c - ch "0"))%Z) ds 0%Z.

(** The integer part of a number: an optional minus, then [0] or a run
    of digits that does not start with [0]. *)
Definition match_integer (s : str) : option (bool * str * str) :=
  let (neg, s1) :=
    match s with
    | c :: r => if c =? ch "-" then (true, r) else (false, s)
    | [] => (false, s)
    end in
  match s1 with
  | c :: r =>
      if c =? ch "0" then Some (neg, [c], r)
      else if is_digit c then let (ds, r') := span_digits r in Some (neg, c :: ds, r')
      else None
  | [] => None
  end.

(** The fraction: a dot and at least one digit, or nothing. *)
Definition match_frac (s : str) : str * str :=
  match s with
  | dot :: d :: r =>
      if (dot =? ch ".") && is_digit d
      then let (ds, r') := span_digits r in (dot :: d :: ds, r')
      else ([], s)
  | _ => ([], s)
  end.

(** The exponent: [e] or [E], an optional sign and at least one digit, or
    nothing. *)
Definition match_exp (s : str) : str * str :=
  match s with
  | e :: r =>
      if (e =? ch "e") || (e =? ch "E") then
        let (sign, r1) :=
          match r with
          | c :: r1 => if (c =? ch "-") || (c =? ch "+") then ([c], r1) else ([], r)
          | [] => ([], r)
          end in
        match span_digits r1 with
        | ([], _) => ([], s)
        | (ds, r2) => (e :: sign ++ ds, r2)
        end
      else ([], s)
  | [] => ([], s)
  end.

(** [_match_number]: an int when there is neither fraction nor exponent,
    a float otherwise. *)
Definition match_number (s : str) : option (pyval * str) :=
  match match_integer s with
  | None => None
  | Some (neg, ds, r) =>
      let (frac, r1) := match_frac r in
      let (exp, r2) := match_exp r1 in
      match frac, exp with
      | [], [] =>
          Some (PInt (if neg then - int_of_digits ds else int_of_digits ds)%Z, r2)
      | _, _ =>
          Some (PFloat ((if neg then [ch "-"] else []) ++ ds ++ frac ++ exp), r2)
      end
  end.

(** A scan returns a value and the rest of the text, fails with a
    [JSONDecodeError], or runs out of the recursion it was given. *)
Inductive scan (A : Type) : Type :=
| Scanned (a : A) (rest : str)
| Failed
| TooDeep.
Arguments Scanned {A} a rest.
Arguments Failed {A}.
Arguments TooDeep {A}.

(** The constants of [scan_once], after strings, containers and numbers
    have been tried. *)
Definition match_constant (s : str) : scan pyval :=
  match strip_prefix (lit "null") s with
  | Some r => Scanned PNone r
  | None =>
  match strip_prefix (lit "true") s with
  | Some r => Scanned (PBool true) r
  | None =>
  match strip_prefix (lit "false") s with
  | Some r => Scanned (PBool false) r
  | None =>
  match strip_prefix (lit "NaN") s with
  | Some r => Scanned (PFloat (lit "NaN")) r
  | None =>
  match strip_prefix (lit "Infinity") s with
  | Some r => Scanned (PFloat (lit "Infinity")) r
  | None =>
  match strip_prefix (lit "-Infinity") s with
  | Some r => Scanned (PFloat (lit "-Infinity")) r
  | None => Failed
  end end end end end end.

(** [scan_once], [JSONArray] and [JSONObject]: [depth] bounds the nesting
    of calls.  [array_items] reads from the first element of a non-empty
    array on, [object_items] from the opening quote of the first key. *)
Fixpoint scan_once (depth : nat) (s : str) : scan pyval :=
  match depth with
  | O => TooDeep
  | S depth =>
      match s with
      | [] => Failed
      | c :: rest =>
          if c =? DQUOTE then
            match scanstring rest with
            | Some (v, r) => Scanned (PStr v) r
            | None => Failed
            end
          else if c =? ch "{" then
            match skip_ws rest with
            | c' :: r =>
                if c' =? ch "}" then Scanned (PDict []) r
                else
                  match object_items depth (c' :: r) with
                  | Scanned pairs r' =>
                      Scanned (PDict (fold_left (fun d kv => dict_setitem d (fst kv) (snd kv))
                                                pairs [])) r'
                  | Failed => Failed
                  | TooDeep => TooDeep
                  end
            | [] => Failed
            end
          else if c =? ch "[" then
            match skip_ws rest with
            | c' :: r =>
                if c' =? ch "]" then Scanned (PList []) r
                else
                  match array_items depth (c' :: r) with
                  | Scanned values r' => Scanned (PList values) r'
                  | Failed => Failed
                  | TooDeep => TooDeep
                  end
            | [] => Failed
            end
          else
            match match_number s with
            | Some (v, r) => Scanned v r
            | None => match_constant s
            end
      end
  end

with array_items (depth : nat) (s : str) : scan (list pyval) :=
  match depth with
  | O => TooDeep
  | S depth =>
      match scan_once depth s with
      | Scanned v r =>
          match skip_ws r with
          | c :: r' =>
              if c =? ch "]" then Scanned [v] r'
              else if c =? ch "," then
                match array_items depth (skip_ws r') with
                | Scanned vs r'' => Scanned (v :: vs) r''
                | Failed => Failed
                | TooDeep => TooDeep
                end
              else Failed
          | [] => Failed
          end
      | Failed => Failed
      | TooDeep => TooDeep
      end
  end

with object_items (depth : nat) (s : str) : scan (list (str * pyval)) :=
  match depth with
  | O => TooDeep
  | S depth =>
      match s with
      | q :: r =>
          if q =? DQUOTE then
            match scanstring r with
            | Some (key, r1) =>
                match skip_ws r1 with
                | colon :: r2 =>
                    if colon =? ch ":" then
                      match scan_once depth (skip_ws r2) with
                      | Scanned v r3 =>
                          match skip_ws r3 with
                          | c :: r4 =>
                              if c =? ch "}" then Scanned [(key, v)] r4
                              else if c =? ch "," then
                                match object_items depth (skip_ws r4) with
                                | Scanned kvs r5 => Scanned ((key, v) :: kvs) r5
                                | Failed => Failed
                                | TooDeep => TooDeep
                                end
                              else Failed
                          | [] => Failed
                          end
                      | Failed => Failed
                      | TooDeep => TooDeep
                      end
                    else Failed
                | [] => Failed
                end
            | None => Failed
            end
          else Failed
      | [] => Failed
      end
  end.

(** [JSONDecoder.decode(s)]: one value between optional white space, and
    nothing after it.  The depth given is more than a text of that length
    can use (see [scan_once_deep_enough]). *)
Definition decode (s : str) : outcome pyval :=
  match scan_once (2 * List.length s + 1) (skip_ws s) with
  | Scanned v r =>
      match skip_ws r with
      | [] => inr v
      | _ :: _ => inl JSONDecodeError
      end
  | Failed => inl JSONDecodeError
  | TooDeep => inl RecursionError
  end.

(** [s.startswith('\ufeff')]. *)
Definition starts_with_bom (t : str) : bool :=
  match t with
  | c :: _ => c =? 65279
  | [] => false
  end.

(** [json.loads(s)]: a [str] that does not start with a byte order mark
    is decoded; any other value this program can hold is a [TypeError]. *)
Definition loads (s : pyval) : outcome pyval :=
  match s with
  | PStr t => if starts_with_bom t then inl JSONDecodeError else decode t
  | _ => inl TypeError
  end.

End JSONDecoder.

(** ** The interpreter state and the world outside *)

(** An HTTP request as [requests] sends it, and the part of the response
    the function can read. *)
Record request : Type := {
  method : str;
  url : str;
  data : str;
  headers : list (str * str)
}.

Record response : Type := {
  status_code : Z;
  text : str
}.

(** A file opened for reading in binary mode: [f.read()] returns the
    content or raises. *)
Record file : Type := {
  read : outcome bytes
}.

(** The file system and the network: [open(path, 'rb')] and the sending
    of a request return or raise. *)
Record World : Type := {
  open_rb : str -> outcome file;
  send : request -> outcome response
}.

(** What a run does to the outside. *)
Inductive event : Type :=
| Open (path : str)
| Close (path : str)
| Send (rq : request).

(** Dict objects live in a store, so that two names can stand for one
    object; the trace records the events of the run in order. *)
Definition loc := nat.

Record state : Type := {
  heap : loc -> pyval;
  trace : list event
}.

(** A statement runs in a state and returns or raises. *)
Definition M (A : Type) : Type := state -> outcome A * state.

Definition ret {A : Type} (a : A) : M A := fun st => (inr a, st).

Definition bind {A B : Type} (c : M A) (k : A -> M B) : M B :=
  fun st =>
    match c st with
    | (inr a, st') => k a st'
    | (inl e, st') => (inl e, st')
    end.

Definition lift {A : Type} (r : outcome A) : M A := fun st => (r, st).

Declare Scope M_scope.
Delimit Scope M_scope with M.
Notation "x <- c ;; k" := (bind c (fun x => k))
  (at level 61, c at next level, right associativity) : M_scope.

(** The same for expressions that touch no state. *)
Definition bind_outcome {A B : Type} (c : outcome A) (k : A -> outcome B) : outcome B :=
  match c with
  | inr a => k a
  | inl e => inl e
  end.

Declare Scope outcome_scope.
Delimit Scope outcome_scope with outcome.
Notation "x <- c ;; k" := (bind_outcome c (fun x => k))
  (at level 61, c at next level, right associativity) : outcome_scope.

(** [try: body except: handler]: a bare [except] catches every exception. *)
Definition try_except {A : Type} (body : outcome A) (handler : exn -> outcome A)
  : outcome A :=
  match body with
  | inr a => inr a
  | inl e => handler e
  end.

Definition emit (e : event) : M unit :=
  fun st => (inr tt, {| heap := heap st; trace := trace st ++ [e] |}).

(** Reading and writing a dict object of the store. *)
Definition load (l : loc) : M pyval := fun st => (inr (heap st l), st).

Definition store (l : loc) (v : pyval) : M unit :=
  fun st =>
    (inr tt,
     {| heap := fun l' => if Nat.eqb l' l then v else heap st l';
        trace := trace st |}).

(** [with open(path, 'rb') as f: body]: when [open] raises nothing was
    opened; otherwise the file is closed when the body returns and when
    it raises. *)
Definition with_open {A : Type} (w : World) (path : str) (body : file -> M A) : M A :=
  fun st =>
    match open_rb w path with
    | inl e => (inl e, st)
    | inr f =>
        let (_, st1) := emit (Open path) st in
        let (res, st2) := body f st1 in
        let (_, st3) := emit (Close path) st2 in
        (res, st3)
    end.

(** [requests.post(url, data=data, headers=headers)]. *)
Definition requests_post (w : World) (url data : str) (headers : list (str * str))
  : M response :=
  let rq := Build_request (lit "POST") url data headers in
  (_ <- emit (Send rq) ;;
   lift (send w rq))%M.

(** [io.BytesIO]: a buffer holding the bytes it was built from. *)
Record BytesIO_t : Type := BytesIO { getvalue : bytes }.

(** The requests a trace holds, and the files it leaves open. *)
Fixpoint sent (es : list event) : list request :=
  match es with
  | [] => []
  | Send rq :: es' => rq :: sent es'
  | _ :: es' => sent es'
  end.

Fixpoint remove_first (p : str) (ps : list str) : list str :=
  match ps with
  | [] => []
  | q :: ps' => if list_eq_dec N.eq_dec p q then ps' else q :: remove_first p ps'
  end.

Fixpoint left_open (es : list event) (opened : list str) : list str :=
  match es with
  | [] => opened
  | Open p :: es' => left_open es' (p :: opened)
  | Close p :: es' => left_open es' (remove_first p opened)
  | Send _ :: es' => left_open es' opened
  end.

(** ** The client *)

(** The checks of the [try] block: the body parses, the parsed value has
    an item [0], and that item parses in turn. *)
Definition try_block (r : response) : outcome pyval :=
  (result <- JSONDecoder.loads (PStr (text r)) ;;
   item <- getitem0 result ;;
   _ <- JSONDecoder.loads item ;;
   inr result)%outcome.

Definition incorrect_output_format : str :=
  lit "Incorrect output format. Result cant not be parsed: ".

(** From the [try] statement to the [return]. *)
Definition parse_response (r : response) : outcome pyval :=
  (result <- try_except (try_block r)
               (fun _ => inl (ValueError (incorrect_output_format ++ text r))) ;;
   getitem0 result)%outcome.

(** The dict built once, when the [def] statement runs, and bound to
    [parameters] in every call that omits the argument. *)
Definition parameters_default : loc := 0%nat.

(** The dict object the name [parameters] stands for in a call. *)
Definition parameters_object (parameters : option loc) : loc :=
  match parameters with
  | Some l => l
  | None => parameters_default
  end.

Section Client.

Variable floatstr : str -> str.

(** [score_image_with_http(image, service_endpoint_url, service_key=None,
    parameters={})]; [parameters] is a reference to a dict object, [None]
    when the caller omits it.  The dict is read where [json.dumps] walks
    the payload; nothing writes to it before. *)
Definition score_image_with_http (w : World) (image service_endpoint_url : str)
    (service_key : option str) (parameters : option loc) : M pyval :=
  let parameters := parameters_object parameters in
  let headers :=
    match service_key with
    | None => [(lit "Content-Type", lit "application/json")]
    | Some service_key =>
        [(lit "Content-Type", lit "application/json");
         (lit "Authorization", lit "Bearer " ++ service_key)]
    end in
  let payload := [] in
  (image_buffer <- with_open w image
                     (fun f => content <- lift (read f) ;; ret (BytesIO content)) ;;
   let encoded := Base64.b64encode (getvalue image_buffer) in
   parameters_now <- load parameters ;;
   let image_request :=
     PDict [(lit "image_in_base64", PStr (format_0 encoded));
            (lit "parameters", parameters_now)] in
   let payload := payload ++ [image_request] in
   let body := JSONEncoder.dumps floatstr (PList payload) in
   r <- requests_post w service_endpoint_url body headers ;;
   lift (parse_response r))%M.

(** A caller's calls, one after the other, whatever each returns. *)
Record call : Type := {
  call_world : World;
  call_image : str;
  call_url : str;
  call_key : option str;
  call_parameters : option loc
}.

Fixpoint run_calls (cs : list call) (st : state) : state :=
  match cs with
  | [] => st
  | c :: cs' =>
      run_calls cs'
        (snd (score_image_with_http (call_world c) (call_image c) (call_url c)
                (call_key c) (call_parameters c) st))
  end.

End Client.

(** ** The scenario of the specification *)

Module Scenario.

Definition cat_jpg : bytes := [x00; x01; x02; x03; x04; x05; x06; x07; x08; x09].

Definition mock_response : response :=
  {| status_code := 200;
     text := jlit "[`{\`label\`:\`cat\`,\`score\`:0.91}`]" |}.

(** A file system that holds [cat.jpg] and nothing else, and a server
    that answers every request with [mock_response]. *)
Definition world : World :=
  {| open_rb := fun path =>
       if list_eq_dec N.eq_dec path (lit "cat.jpg")
       then inr {| read := inr cat_jpg |}
       else inl (OSError (lit "No such file or directory"));
     send := fun _ => inr mock_response |}.


Definition endpoint : str := lit "http://localhost:9999/score".

(** The state after the [def] statement: the default dict is empty. *)
Definition initial : state :=
  {| heap := fun _ => PDict []; trace := [] |}.

(** Floats written as the literal that denotes them. *)
Definition floatstr (l : str) : str := l.

End Scenario.

(** ** Notions the statements below use *)

(** The events a statement adds to the trace of the state it starts in. *)
Definition events_of {A : Type} (c : M A) (st : state) : list event :=
  skipn (List.length (trace st)) (trace (snd (c st))).

(** [rq.headers.get(name)]. *)
Definition get_header (name : str) (rq : request) : option str :=
  option_map snd
    (find (fun kv => if list_eq_dec N.eq_dec (fst kv) name then true else false)
          (headers rq)).

(** Opening a file and reading all of it. *)
Definition read_file (w : World) (path : str) : outcome bytes :=
  (f <- open_rb w path ;; read f)%outcome.

(** The shape the specification expects of a response body: a JSON array
    whose first element is a string that is JSON in turn. *)
Definition expected_shape (body : str) : bool :=
  match JSONDecoder.loads (PStr body) with
  | inr (PList (PStr first :: _)) =>
      match JSONDecoder.loads (PStr first) with
      | inr _ => true
      | inl _ => false
      end
  | _ => false
  end.

(** A world whose server answers with other status codes and the same
    bodies. *)
Definition with_status (code : response -> Z) (w : World) : World :=
  {| open_rb := open_rb w;
     send := fun rq =>
       match send w rq with
       | inr r => inr {| status_code := code r; text := text r |}
       | inl e => inl e
       end |}.

(** The request of a call that has read [content], with [p] the value of
    the dict [parameters] stands for: [body] and [headers] as they are at
    the [requests.post] line. *)
Definition request_for (floatstr : str -> str) (service_endpoint_url : str)
    (service_key : option str) (content : bytes) (p : pyval) : request :=
  {| method := lit "POST";
     url := service_endpoint_url;
     data := JSONEncoder.dumps floatstr
               (PList [PDict [(lit "image_in_base64",
                               PStr (format_0 (Base64.b64encode content)));
                              (lit "parameters", p)]]);
     headers :=
       match service_key with
       | None => [(lit "Content-Type", lit "application/json")]
       | Some service_key =>
           [(lit "Content-Type", lit "application/json");
            (lit "Authorization", lit "Bearer " ++ service_key)]
       end |}.

(** ** Checks that run over all octets *)

Definition Nrange (n : nat) : list N := map N.of_nat (seq 0 n).

Module Base64Checks.
Import Base64.

(** An alphabet character is not skipped by the decoder, is not the pad,
    and its table entry is its index. *)
Definition alphabet_ok (v : N) : bool :=
  let c := Byte.to_N (b2a v) in
  negb ((127 <? c) || (c =? 13) || (c =? 10) || (c =? ch " "))
  && negb (c =? BASE64_PAD)
  && match table_a2b_base64 c with Some w => w =? v | None => false end.

(** The sextets of a group are below 64. *)
Definition sextets_ok (x y : N) : bool :=
  (N.shiftr x 2 <? 64)
  && (N.shiftl (N.land x 3) 4 <? 64)
  && (N.lor (N.shiftl (N.land x 3) 4) (N.shiftr y 4) <? 64)
  && (N.shiftl (N.land y 15) 2 <? 64)
  && (N.lor (N.shiftl (N.land x 15) 2) (N.shiftr y 6) <? 64)
  && (N.land y 63 <? 64).

(** What the decoder computes from the sextets of a group: the first
    octet and the bits left over after it, ... *)
Definition first_ok (x y : N) : bool :=
  let v1 := N.shiftr x 2 in
  let v2 := N.lor (N.shiftl (N.land x 3) 4) (N.shiftr y 4) in
  let lc := N.lor (N.shiftl (N.lor (N.shiftl 0 6) v1) 6) v2 in
  (N.land (N.shiftr lc 4) 255 =? x) && (N.land lc 15 =? N.shiftr y 4).

(** ... the second octet and the bits left over after it, ... *)
Definition second_ok (y z : N) : bool :=
  let v3 := N.lor (N.shiftl (N.land y 15) 2) (N.shiftr z 6) in
  let lc := N.lor (N.shiftl (N.shiftr y 4) 6) v3 in
  (N.land (N.shiftr lc 2) 255 =? y) && (N.land lc 3 =? N.shiftr z 6).

(** ... and the third octet. *)
Definition third_ok (z : N) : bool :=
  N.land (N.shiftr (N.lor (N.shiftl (N.shiftr z 6) 6) (N.land z 63)) 0) 255 =? z.

(** [bytes.__repr__] writes a character of a base64 text as it is. *)
Definition plain_ok (c : N) : bool :=
  implb (b64char c)
        (negb (c =? ch "'") && negb (c =? DQUOTE) && negb (c =? BACKSLASH)
         && negb (c =? 9) && negb (c =? 10) && negb (c =? 13)
         && negb ((c <? ch " ") || (127 <=? c))).

End Base64Checks.

(** ** More notions, and more cases to run *)

(** A body that is a JSON string whose first character is a digit. *)
Definition digit_string_shape (body : str) : bool :=
  match JSONDecoder.loads (PStr body) with
  | inr (PStr (c :: _)) => JSONDecoder.is_digit c
  | _ => false
  end.

(** The characters [encode_basestring_ascii] writes as they are. *)
Definition plain_json (c : N) : bool :=
  (ch " " <=? c) && (c <=? ch "~") && negb (c =? BACKSLASH) && negb (c =? DQUOTE).

Module Cases.

(** The file system of the scenario with a server that cannot be
    reached. *)
Definition unreachable : World :=
  {| open_rb := open_rb Scenario.world;
     send := fun _ => inl (RequestException (lit "Connection refused")) |}.

(** A server that answers with a bare JSON string. *)
Definition string_server : World :=
  {| open_rb := open_rb Scenario.world;
     send := fun _ => inr {| status_code := 200; text := jlit "`1abc`" |} |}.

End Cases.

(** The text of a request body around the base64 text of the image and
    around the serialized [parameters]. *)
Definition body_before_image : str := jlit "[{`image_in_base64`: `b'".
Definition body_after_image : str := jlit "'`, `parameters`: ".
Definition body_end : str := lit "}]".

(** Whether a one-character text is JSON goes with whether the character
    is a digit. *)
Definition single_char_ok (c : N) : bool :=
  Bool.eqb (match JSONDecoder.loads (PStr [c]) with inr _ => true | inl _ => false end)
           (JSONDecoder.is_digit c).

(** ** The C# example of the deployment notebook *)

(** The request body that [Main] of the C# example builds.  A .NET
    string is given by its UTF-16 code units. *)
Module CSharpExample.

(** [Convert.ToBase64String(bytes, Base64FormattingOptions.None)]: the
    standard alphabet with padding and no line breaks. *)
Definition ToBase64String (bytes : bytes) : str :=
  decode_ascii (Base64.b2a_base64 (map Byte.to_N bytes)).

(** Json.NET's escaping of one character of a string written between
    double quotes, with the default [StringEscapeHandling]. *)
Definition escape_char (c : N) : str :=
  if c =? 9 then [BACKSLASH; ch "t"]
  else if c =? 10 then [BACKSLASH; ch "n"]
  else if c =? 13 then [BACKSLASH; ch "r"]
  else if c =? 12 then [BACKSLASH; ch "f"]
  else if c =? 8 then [BACKSLASH; ch "b"]
  else if c =? BACKSLASH then [BACKSLASH; BACKSLASH]
  else if c =? DQUOTE then [BACKSLASH; DQUOTE]
  else if (c <? ch " ") || (c =? 133) || (c =? 8232) || (c =? 8233)
       then [BACKSLASH; ch "u"] ++ JSONEncoder.hex4 c
       else [c].

Definition write_string (s : str) : str :=
  [DQUOTE] ++ flat_map escape_char s ++ [DQUOTE].

(** The value of [json] in [Main]:
    [JsonConvert.SerializeObject(data)] for the array of one anonymous
    object with the properties [image_in_base64], the interpolated
    string, and [parameters], an object without properties; no white
    space is written. *)
Definition json (bytes : bytes) : str :=
  let base64 := ToBase64String bytes in
  let image_in_base64 := lit "b'" ++ base64 ++ lit "'" in
  lit "[{" ++ write_string (lit "image_in_base64") ++ lit ":"
  ++ write_string image_in_base64 ++ lit ","
  ++ write_string (lit "parameters") ++ lit ":" ++ lit "{}" ++ lit "}]".

End CSharpExample.

(** Printable ASCII. *)
Definition printable (c : N) : bool := (ch " " <=? c) && (c <=? ch "~").

(** The hex digit of a nibble is printable. *)
Definition hexdigit_ok (n : N) : bool := printable (hexdigit n).

(** ** The cell that prints the detections of an image *)

(** The cell of the object detection notebook that inverts
    [my_detector.class_map] and prints the detections that score above
    0.5.  The detector and its result come from outside: [class_map] is
    taken as a dict from label names to class numbers and the four
    entries of [detections_dict] as a number and three sequences. *)
Module DetectionCell.

Section Cell.

(** Scores and box coordinates are floats; the cell compares a score
    with 0.5 and formats floats into the lines it prints, and does
    nothing else with them. *)
Variable float : Type.
Variable above_half : float -> bool.
Variable format_object :
  nat -> str -> float -> float -> float -> float -> float -> str.
Variable format_found : nat -> str -> str.

Record detections : Type := {
  num_detections : nat;
  detection_scores : list float;
  detection_classes : list Z;
  detection_boxes : list (list float)
}.

(** [d[k] = v] and [d[k]] on a dict from class numbers to labels. *)
Fixpoint setitem (d : list (Z * str)) (k : Z) (v : str) : list (Z * str) :=
  match d with
  | [] => [(k, v)]
  | (k', v') :: d' =>
      if Z.eqb k' k then (k', v) :: d' else (k', v') :: setitem d' k v
  end.

Fixpoint getitem (d : list (Z * str)) (k : Z) : outcome str :=
  match d with
  | [] => inl KeyError
  | (k', v) :: d' => if Z.eqb k' k then inr v else getitem d' k
  end.

(** [a[i]] on a sequence, for [i] from [range]. *)
Definition index {A : Type} (a : list A) (i : nat) : outcome A :=
  match nth_error a i with
  | Some x => inr x
  | None => inl IndexError
  end.

(** [dict((v,k) for k,v in class_map.items())]. *)
Definition invert (class_map : list (str * Z)) : list (Z * str) :=
  fold_left (fun d kv => setitem d (snd kv) (fst kv)) class_map [].

(** The line of detection [i]: the arguments of [format], from left to
    right. *)
Definition object_line (look_up : list (Z * str)) (d : detections) (i : nat)
  : outcome str :=
  (class <- index (detection_classes d) i ;;
   label <- getitem look_up class ;;
   score <- index (detection_scores d) i ;;
   box0 <- index (detection_boxes d) i ;;
   top <- index box0 0 ;;
   box1 <- index (detection_boxes d) i ;;
   left <- index box1 1 ;;
   box2 <- index (detection_boxes d) i ;;
   bottom <- index box2 2 ;;
   box3 <- index (detection_boxes d) i ;;
   right <- index box3 3 ;;
   inr (format_object i label score top left bottom right))%outcome.

(** The [for] loop over the indices still to visit: the lines printed so
    far, the value of [n_obj], and the exception that ended the loop, if
    one did. *)
Fixpoint loop (look_up : list (Z * str)) (d : detections) (indices : list nat)
    (n_obj : nat) (printed : list str) : list str * nat * option exn :=
  match indices with
  | [] => (printed, n_obj, None)
  | i :: indices' =>
      match index (detection_scores d) i with
      | inl e => (printed, n_obj, Some e)
      | inr score =>
          if above_half score then
            let n_obj := S n_obj in
            match object_line look_up d i with
            | inl e => (printed, n_obj, Some e)
            | inr line => loop look_up d indices' n_obj (printed ++ [line])
            end
          else loop look_up d indices' n_obj printed
      end
  end.

(** The cell: what it prints, the value [n_obj] is left with, and the
    exception it ends with, if any. *)
Definition cell (class_map : list (str * Z)) (detections_dict : detections)
    (image_path : str) : list str * nat * option exn :=
  let look_up := invert class_map in
  let n_obj := 0%nat in
  match loop look_up detections_dict (seq 0 (num_detections detections_dict))
             n_obj [] with
  | (printed, n_obj, Some e) => (printed, n_obj, Some e)
  | (printed, n_obj, None) =>
      (printed ++ [format_found n_obj image_path], n_obj, None)
  end.

(** The indices among [indices] whose score is above 0.5. *)
Definition selected (d : detections) (indices : list nat) : list nat :=
  filter (fun i => match nth_error (detection_scores d) i with
                   | Some score => above_half score
                   | None => false
                   end) indices.

(** Detection [i] has a score and, when the score is above 0.5, a line. *)
Definition printable_detection (look_up : list (Z * str)) (d : detections)
    (i : nat) : bool :=
  match nth_error (detection_scores d) i with
  | Some score =>
      if above_half score
      then match object_line look_up d i with inr _ => true | inl _ => false end
      else true
  | None => false
  end.

(** The line of a detection that has one. *)
Definition line_of (look_up : list (Z * str)) (d : detections) (i : nat) : str :=
  match object_line look_up d i with
  | inr line => line
  | inl _ => []
  end.

End Cell.

Arguments num_detections {float} d.
Arguments detection_scores {float} d.
Arguments detection_classes {float} d.
Arguments detection_boxes {float} d.
Arguments object_line {float} format_object look_up d i.
Arguments loop {float} above_half format_object look_up d indices n_obj printed.
Arguments cell {float} above_half format_object format_found class_map
  detections_dict image_path.
Arguments selected {float} above_half d indices.
Arguments printable_detection {float} above_half format_object look_up d i.
Arguments line_of {float} format_object look_up d i.

End DetectionCell.

(** ** Cases for the cell and for the encoder *)

Module MoreCases.

(** Every float written as [0.5]. *)
Definition floatstr_fixed (l : str) : str := lit "0.5".

(** Parameters with a string outside ASCII and a float. *)
Definition parameters_mixed : pyval :=
  PDict [(lit "name", PStr [233; 128512]); (lit "threshold", PFloat (lit "0.5"))].

(** The octets 0 to 9 written another way. *)
Definition ten_octets : bytes := map byte_of_N (Nrange 10).

(** Floats given in hundredths. *)
Definition above_half (x : Z) : bool := (50 <? x)%Z.

Definition format_object (i : nat) (label : str) (score top left bottom right : Z)
  : str :=
  lit "Object " ++ JSONEncoder.int_repr (Z.of_nat i) ++ lit ": label=" ++ label
  ++ lit ", score=" ++ JSONEncoder.int_repr score.

Definition format_found (n_obj : nat) (image_path : str) : str :=
  lit "Found " ++ JSONEncoder.int_repr (Z.of_nat n_obj) ++ lit " objects in image "
  ++ image_path.

Definition class_map : list (str * Z) := [(lit "apple", 1%Z); (lit "pear", 2%Z)].


(** Two detections below 0.5, without classes and boxes. *)
Definition faint : DetectionCell.detections Z :=
  {| DetectionCell.num_detections := 2;
     DetectionCell.detection_scores := [10; 20]%Z;
     DetectionCell.detection_classes := [];
     DetectionCell.detection_boxes := [] |}.

End MoreCases.

(** * Part II: facts *)

(** ** Running a check over a range *)

Lemma Nrange_In (n : nat) (x : N) : x < N.of_nat n -> In x (Nrange n).
Proof.
  intros H. unfold Nrange. apply in_map_iff. exists (N.to_nat x). split.
  - apply N2Nat.id.
  - apply in_seq. lia.
Qed.

Lemma forall_below (f : N -> bool) (n : nat) :
  forallb f (Nrange n) = true -> forall x, x < N.of_nat n -> f x = true.
Proof.
  intros H x Hx. rewrite forallb_forall in H. apply H, Nrange_In, Hx.
Qed.

Lemma forall_below2 (f : N -> N -> bool) (n m : nat) :
  forallb (fun x => forallb (f x) (Nrange m)) (Nrange n) = true ->
  forall x y, x < N.of_nat n -> y < N.of_nat m -> f x y = true.
Proof.
  intros H x y Hx Hy.
  apply (forall_below (f x) m); [| exact Hy].
  apply (forall_below (fun x => forallb (f x) (Nrange m)) n H x Hx).
Qed.

Lemma byte_to_N_lt (b : byte) : Byte.to_N b < N.of_nat 256.
Proof. pose proof (Byte.to_N_bounded b). lia. Qed.

Lemma byte_of_to_N (b : byte) : byte_of_N (Byte.to_N b) = b.
Proof.
  unfold byte_of_N. pose proof (Byte.to_N_bounded b).
  rewrite N.mod_small by lia. now rewrite Byte.of_to_N.
Qed.

Ltac split_andb H :=
  repeat (let H' := fresh H in apply andb_prop in H; destruct H as [H H']).

Ltac to_props :=
  repeat match goal with
         | H : (_ <? _) = true |- _ => apply N.ltb_lt in H
         | H : (_ =? _) = true |- _ => apply N.eqb_eq in H
         end.

(** ** The base64 step *)

Module Base64Facts.
Import Base64 Base64Checks.

Lemma alphabet_ok_all (v : N) : v < 64 -> alphabet_ok v = true.
Proof. apply (forall_below alphabet_ok 64). vm_compute. reflexivity. Qed.

Lemma sextets_ok_all (x y : byte) : sextets_ok (Byte.to_N x) (Byte.to_N y) = true.
Proof.
  apply (forall_below2 sextets_ok 256 256); try apply byte_to_N_lt.
  vm_compute. reflexivity.
Qed.

Lemma first_ok_all (x y : byte) : first_ok (Byte.to_N x) (Byte.to_N y) = true.
Proof.
  apply (forall_below2 first_ok 256 256); try apply byte_to_N_lt.
  vm_compute. reflexivity.
Qed.

Lemma second_ok_all (y z : byte) : second_ok (Byte.to_N y) (Byte.to_N z) = true.
Proof.
  apply (forall_below2 second_ok 256 256); try apply byte_to_N_lt.
  vm_compute. reflexivity.
Qed.

Lemma third_ok_all (z : byte) : third_ok (Byte.to_N z) = true.
Proof.
  apply (forall_below third_ok 256); try apply byte_to_N_lt.
  vm_compute. reflexivity.
Qed.

Lemma plain_ok_all (b : byte) : plain_ok (Byte.to_N b) = true.
Proof.
  apply (forall_below plain_ok 256); try apply byte_to_N_lt.
  vm_compute. reflexivity.
Qed.

Lemma sextets_lt (x y : byte) :
  let X := Byte.to_N x in let Y := Byte.to_N y in
  N.shiftr X 2 < 64 /\ N.shiftl (N.land X 3) 4 < 64
  /\ N.lor (N.shiftl (N.land X 3) 4) (N.shiftr Y 4) < 64
  /\ N.shiftl (N.land Y 15) 2 < 64
  /\ N.lor (N.shiftl (N.land X 15) 2) (N.shiftr Y 6) < 64
  /\ N.land Y 63 < 64.
Proof.
  intros X Y. subst X Y.
  pose proof (sextets_ok_all x y) as H. unfold sextets_ok in H. split_andb H. to_props. repeat split; assumption.
Qed.

(** One step of the decoder on an alphabet character. *)
Lemma a2b_loop_data (v : N) (rest : list N) (quad_pos leftchar leftbits : N) :
  v < 64 ->
  a2b_loop (Byte.to_N (b2a v) :: rest) quad_pos leftchar leftbits =
  if 8 <=? leftbits + 6 then
    option_map
      (cons (byte_of_N (N.land (N.shiftr (N.lor (N.shiftl leftchar 6) v)
                                         (leftbits + 6 - 8)) 255)))
      (a2b_loop rest (N.land (quad_pos + 1) 3)
                (N.land (N.lor (N.shiftl leftchar 6) v)
                        (N.shiftl 1 (leftbits + 6 - 8) - 1))
                (leftbits + 6 - 8))
  else a2b_loop rest (N.land (quad_pos + 1) 3)
                (N.lor (N.shiftl leftchar 6) v) (leftbits + 6).
Proof.
  intros Hv. pose proof (alphabet_ok_all v Hv) as Hok. unfold alphabet_ok in Hok.
  apply andb_prop in Hok. destruct Hok as [Hok Htab].
  apply andb_prop in Hok. destruct Hok as [Hskip Hpad].
  apply negb_true_iff in Hskip, Hpad.
  cbn [a2b_loop]. rewrite Hskip, Hpad.
  destruct (table_a2b_base64 (Byte.to_N (b2a v))) as [w|]; [| discriminate].
  apply N.eqb_eq in Htab. subst w. reflexivity.
Qed.

(** Four alphabet characters from the initial state give back the three
    octets they encode and leave the decoder in the initial state. *)
Lemma a2b_group (x y z : byte) (rest : list N) :
  let X := Byte.to_N x in let Y := Byte.to_N y in let Z := Byte.to_N z in
  a2b_loop (Byte.to_N (b2a (N.shiftr X 2))
            :: Byte.to_N (b2a (N.lor (N.shiftl (N.land X 3) 4) (N.shiftr Y 4)))
            :: Byte.to_N (b2a (N.lor (N.shiftl (N.land Y 15) 2) (N.shiftr Z 6)))
            :: Byte.to_N (b2a (N.land Z 63)) :: rest) 0 0 0
  = option_map (fun t => x :: y :: z :: t) (a2b_loop rest 0 0 0).
Proof.
  intros X Y Z. subst X Y Z.
  destruct (sextets_lt x y) as (Sa & _ & Sb & _).
  destruct (sextets_lt y z) as (_ & _ & _ & _ & Sc & Sd).
  pose proof (first_ok_all x y) as F. pose proof (second_ok_all y z) as G.
  pose proof (third_ok_all z) as T.
  unfold first_ok in F. unfold second_ok in G. unfold third_ok in T.
  cbv zeta in *.
  split_andb F. split_andb G. to_props.
  rewrite a2b_loop_data by assumption.
  change (8 <=? 0 + 6) with false. cbv iota.
  rewrite a2b_loop_data by assumption.
  change (0 + 6 + 6) with 12. change (8 <=? 12) with true. cbv iota.
  change (12 - 8) with 4. change (N.shiftl 1 4 - 1) with 15.
  rewrite F, F0. rewrite byte_of_to_N.
  rewrite a2b_loop_data by assumption.
  change (4 + 6) with 10. change (8 <=? 10) with true. cbv iota.
  change (10 - 8) with 2. change (N.shiftl 1 2 - 1) with 3.
  rewrite G, G0. rewrite byte_of_to_N.
  rewrite a2b_loop_data by assumption.
  change (2 + 6) with 8. change (8 <=? 8) with true. cbv iota.
  change (8 - 8) with 0. change (N.shiftl 1 0 - 1) with 0.
  rewrite T, N.land_0_r. rewrite byte_of_to_N.
  change (N.land (N.land (N.land (N.land (0 + 1) 3 + 1) 3 + 1) 3 + 1) 3) with 0.
  destruct (a2b_loop rest 0 0 0); reflexivity.
Qed.

(** A last group of one octet: two characters and two pads. *)
Lemma a2b_tail1 (x : byte) :
  let X := Byte.to_N x in
  a2b_loop [Byte.to_N (b2a (N.shiftr X 2));
            Byte.to_N (b2a (N.shiftl (N.land X 3) 4));
            Byte.to_N (byte_of_N BASE64_PAD);
            Byte.to_N (byte_of_N BASE64_PAD)] 0 0 0
  = Some [x].
Proof.
  intros X. subst X.
  destruct (sextets_lt x x) as (Sa & Sb & _).
  pose proof (first_ok_all x x00) as F.
  unfold first_ok in F. cbv zeta in *.
  change (Byte.to_N x00) with 0 in F.
  change (N.shiftr 0 4) with 0 in F. rewrite N.lor_0_r in F.
  split_andb F. to_props.
  rewrite a2b_loop_data by assumption.
  change (8 <=? 0 + 6) with false. cbv iota.
  rewrite a2b_loop_data by assumption.
  change (0 + 6 + 6) with 12. change (8 <=? 12) with true. cbv iota.
  change (12 - 8) with 4.
  rewrite F. rewrite byte_of_to_N.
  reflexivity.
Qed.

(** A last group of two octets: three characters and one pad. *)
Lemma a2b_tail2 (x y : byte) :
  let X := Byte.to_N x in let Y := Byte.to_N y in
  a2b_loop [Byte.to_N (b2a (N.shiftr X 2));
            Byte.to_N (b2a (N.lor (N.shiftl (N.land X 3) 4) (N.shiftr Y 4)));
            Byte.to_N (b2a (N.shiftl (N.land Y 15) 2));
            Byte.to_N (byte_of_N BASE64_PAD)] 0 0 0
  = Some [x; y].
Proof.
  intros X Y. subst X Y.
  destruct (sextets_lt x y) as (Sa & _ & Sb & Sc & _).
  pose proof (first_ok_all x y) as F. pose proof (second_ok_all y x00) as G.
  unfold first_ok in F. unfold second_ok in G. cbv zeta in *.
  change (Byte.to_N x00) with 0 in G.
  change (N.shiftr 0 6) with 0 in G. rewrite N.lor_0_r in G.
  split_andb F. split_andb G. to_props.
  rewrite a2b_loop_data by assumption.
  change (8 <=? 0 + 6) with false. cbv iota.
  rewrite a2b_loop_data by assumption.
  change (0 + 6 + 6) with 12. change (8 <=? 12) with true. cbv iota.
  change (12 - 8) with 4. change (N.shiftl 1 4 - 1) with 15.
  rewrite F, F0. rewrite byte_of_to_N.
  rewrite a2b_loop_data by assumption.
  change (4 + 6) with 10. change (8 <=? 10) with true. cbv iota.
  change (10 - 8) with 2.
  rewrite G. rewrite byte_of_to_N.
  reflexivity.
Qed.

(** Lists three elements at a time. *)
Lemma list_ind3 (A : Type) (P : list A -> Prop) :
  P [] -> (forall x, P [x]) -> (forall x y, P [x; y]) ->
  (forall x y z l, P l -> P (x :: y :: z :: l)) ->
  forall l, P l.
Proof.
  intros H0 H1 H2 H3.
  assert (forall l, P l /\ (forall x, P (x :: l)) /\ (forall x y, P (x :: y :: l))) as H.
  { induction l as [| a l (IH0 & IH1 & IH2)]; repeat split; auto. }
  intros l. apply H.
Qed.

(** Decoding what the encoder wrote gives back the input. *)
Lemma a2b_b2a (s : bytes) : a2b_base64 (decode_ascii (b64encode s)) = Some s.
Proof.
  unfold a2b_base64, b64encode.
  induction s as [| x | x y | x y z s IH] using list_ind3.
  - reflexivity.
  - apply a2b_tail1.
  - apply a2b_tail2.
  - cbn [map b2a_base64 decode_ascii].
    fold (decode_ascii (b2a_base64 (map Byte.to_N s))).
    rewrite a2b_group, IH. reflexivity.
Qed.

Lemma b2a_b64char (v : N) : v < 64 -> b64char (Byte.to_N (b2a v)) = true.
Proof.
  intros Hv. pose proof (alphabet_ok_all v Hv) as Hok. unfold alphabet_ok in Hok.
  apply andb_prop in Hok. destruct Hok as [_ Htab]. unfold b64char.
  destruct (table_a2b_base64 _); [reflexivity | discriminate].
Qed.

(** The encoder writes alphabet and pad characters only. *)
Lemma b64encode_b64char (s : bytes) :
  forallb b64char (decode_ascii (b64encode s)) = true.
Proof.
  unfold b64encode.
  induction s as [| x | x y | x y z s IH] using list_ind3;
    cbn [map b2a_base64 decode_ascii forallb].
  - reflexivity.
  - destruct (sextets_lt x x) as (? & ? & _).
    rewrite !b2a_b64char by assumption. reflexivity.
  - destruct (sextets_lt x y) as (? & _ & ? & ? & _).
    rewrite !b2a_b64char by assumption. reflexivity.
  - destruct (sextets_lt x y) as (? & _ & ? & _).
    destruct (sextets_lt y z) as (_ & _ & _ & _ & ? & ?).
    rewrite !b2a_b64char by assumption. exact IH.
Qed.

(** A character of a base64 text is printable ASCII, and neither a quote
    nor the backslash. *)
Lemma b64char_plain (x : byte) :
  b64char (Byte.to_N x) = true ->
  let c := Byte.to_N x in
  c <> ch "'" /\ c <> DQUOTE /\ c <> BACKSLASH /\ c <> 9 /\ c <> 10 /\ c <> 13
  /\ ch " " <= c /\ c < 127.
Proof.
  intros Hx c. subst c.
  pose proof (plain_ok_all x) as Hp. unfold plain_ok in Hp.
  rewrite Hx in Hp. cbn [implb] in Hp.
  repeat match goal with
         | H : _ && _ = true |- _ => apply andb_prop in H; destruct H
         | H : negb _ = true |- _ => apply negb_true_iff in H
         | H : _ || _ = false |- _ => apply orb_false_iff in H; destruct H
         | H : (_ =? _) = false |- _ => apply N.eqb_neq in H
         | H : (_ <? _) = false |- _ => apply N.ltb_ge in H
         | H : (_ <=? _) = false |- _ => apply N.leb_gt in H
         end.
  repeat split; assumption.
Qed.

(** A base64 text held in a bytes object is ASCII and has no line break. *)
Lemma b64_text_ascii (b : bytes) :
  forallb b64char (decode_ascii b) = true ->
  forallb (fun c => c <=? 127) (decode_ascii b) = true
  /\ ~ In 10 (decode_ascii b) /\ ~ In 13 (decode_ascii b).
Proof.
  induction b as [| x b IH]; cbn [decode_ascii map forallb In].
  - intros _. repeat split; intros [].
  - intros Hb. apply andb_prop in Hb. destruct Hb as [Hx Hb].
    destruct (IH Hb) as (IH1 & IH2 & IH3). fold (decode_ascii b).
    destruct (b64char_plain x Hx) as (_ & _ & _ & _ & Hn & Hr & _ & Hlt).
    repeat split.
    + rewrite IH1, andb_true_r. apply N.leb_le. lia.
    + intros [E | E]; [congruence | auto].
    + intros [E | E]; [congruence | auto].
Qed.

(** [repr] of a bytes object that holds a base64 text: the text between
    [b'] and [']. *)
Lemma bytes_repr_b64 (b : bytes) :
  forallb b64char (decode_ascii b) = true ->
  bytes_repr b = lit "b'" ++ decode_ascii b ++ lit "'".
Proof.
  intros Hb. unfold bytes_repr. unfold decode_ascii in *.
  assert (existsb (N.eqb (ch "'")) (map Byte.to_N b) = false) as Hq.
  { induction b as [| x b IH]; [reflexivity |].
    cbn [map forallb existsb] in *.
    apply andb_prop in Hb. destruct Hb as [Hx Hb].
    rewrite (IH Hb), orb_false_r.
    destruct (b64char_plain x Hx) as (Hs & _).
    apply N.eqb_neq. congruence. }
  rewrite Hq. cbn [andb].
  change (lit "b'") with [ch "b"; ch "'"]. change (lit "'") with [ch "'"].
  cbn [app]. do 2 f_equal. f_equal.
  clear Hq. induction b as [| x b IH]; [reflexivity |].
  cbn [map forallb flat_map] in *.
  apply andb_prop in Hb. destruct Hb as [Hx Hb].
  rewrite (IH Hb).
  destruct (b64char_plain x Hx) as (Hs & _ & Hbs & Ht & Hn & Hr & Hlo & Hhi).
  apply N.eqb_neq in Hs, Hbs, Ht, Hn, Hr.
  rewrite Hs, Hbs, Ht, Hn, Hr. cbn [orb].
  replace (Byte.to_N x <? ch " ") with false by (symmetry; apply N.ltb_ge; exact Hlo).
  replace (127 <=? Byte.to_N x) with false by (symmetry; apply N.leb_gt; exact Hhi).
  reflexivity.
Qed.

End Base64Facts.

(** ** The JSON decoder never runs out of depth *)

Module JSONDecoderFacts.
Import JSONDecoder.

Local Open Scope nat_scope.

Lemma skip_ws_length (s : str) : List.length (skip_ws s) <= List.length s.
Proof.
  induction s as [| c s IH]; cbn [skip_ws List.length]; [lia |].
  destruct (is_ws c); cbn [List.length]; lia.
Qed.

Lemma cons_chr_Some (c : N) (r : option (str * str)) (v rest : str) :
  cons_chr c r = Some (v, rest) -> exists v', r = Some (v', rest).
Proof.
  destruct r as [[v' rest'] |]; cbn [cons_chr]; intros H; [| discriminate].
  injection H as _ <-. now exists v'.
Qed.

(** A string scan ends after the closing quote it has read. *)
Lemma scanstring_length (s v r : str) :
  scanstring s = Some (v, r) -> List.length r < List.length s.
Proof.
  remember (List.length s) as n eqn:Hn.
  assert (List.length s <= n) as Hle by lia. clear Hn.
  revert s v r Hle. induction n as [| n IH]; intros s v r Hle H.
  - destruct s; [discriminate | cbn [List.length] in Hle; lia].
  - destruct s as [| c rest]; [discriminate |].
    cbn [List.length] in Hle. cbn [scanstring] in H.
    repeat match type of H with
           | Some _ = Some _ => injection H as <- <-
           | None = Some _ => discriminate H
           | cons_chr _ (scanstring ?x) = Some _ =>
               let E := fresh "E" in
               destruct (cons_chr_Some _ _ _ _ H) as [? E];
               apply IH in E; [| cbn [List.length] in *; lia];
               clear H
           | context [match ?x with _ => _ end] => destruct x eqn:?
           end;
      cbn [List.length] in *; try lia.
Qed.

Lemma span_digits_length (s : str) :
  List.length (snd (span_digits s)) <= List.length s.
Proof.
  induction s as [| c s IH]; cbn [span_digits]; [cbn; lia |].
  destruct (is_digit c); [| cbn; lia].
  destruct (span_digits s) as [ds r']. cbn [snd List.length] in *. lia.
Qed.

Lemma match_integer_length (s : str) (neg : bool) (ds r : str) :
  match_integer s = Some (neg, ds, r) -> List.length r < List.length s.
Proof.
  unfold match_integer. intros H.
  destruct s as [| c r0].
  - discriminate H.
  - destruct (c =? ch "-")%N.
    + destruct r0 as [| c1 r1]; [discriminate |].
      destruct (c1 =? ch "0")%N.
      * injection H as _ _ <-. cbn [List.length]. lia.
      * destruct (is_digit c1); [| discriminate].
        pose proof (span_digits_length r1) as Hd.
        destruct (span_digits r1) as [ds0 r']. injection H as _ _ <-.
        cbn [snd List.length] in *. lia.
    + destruct (c =? ch "0")%N.
      * injection H as _ _ <-. cbn [List.length]. lia.
      * destruct (is_digit c); [| discriminate].
        pose proof (span_digits_length r0) as Hd.
        destruct (span_digits r0) as [ds0 r']. injection H as _ _ <-.
        cbn [snd List.length] in *. lia.
Qed.

Lemma match_frac_length (s : str) :
  List.length (snd (match_frac s)) <= List.length s.
Proof.
  unfold match_frac. destruct s as [| dot [| d r]]; cbn [snd List.length]; try lia.
  destruct ((dot =? ch ".")%N && is_digit d); cbn [snd List.length]; try lia.
  pose proof (span_digits_length r) as Hd.
  destruct (span_digits r) as [ds r']. cbn [snd] in *. lia.
Qed.

Lemma match_exp_length (s : str) :
  List.length (snd (match_exp s)) <= List.length s.
Proof.
  unfold match_exp. destruct s as [| e r]; cbn [snd List.length]; try lia.
  destruct ((e =? ch "e")%N || (e =? ch "E")%N); cbn [snd List.length]; try lia.
  destruct r as [| c r1].
  - cbn. lia.
  - destruct ((c =? ch "-")%N || (c =? ch "+")%N).
    + pose proof (span_digits_length r1) as Hd.
      destruct (span_digits r1) as [[| d ds] r2]; cbn [snd List.length] in *; lia.
    + pose proof (span_digits_length (c :: r1)) as Hd.
      destruct (span_digits (c :: r1)) as [[| d ds] r2]; cbn [snd List.length] in *; lia.
Qed.

(** A number takes at least one character. *)
Lemma match_number_length (s : str) (v : pyval) (r : str) :
  match_number s = Some (v, r) -> List.length r < List.length s.
Proof.
  unfold match_number. intros H.
  destruct (match_integer s) as [[[neg ds] r0] |] eqn:Ei; [| discriminate].
  apply match_integer_length in Ei.
  pose proof (match_frac_length r0) as Hf.
  destruct (match_frac r0) as [frac r1]. cbn [snd] in Hf.
  pose proof (match_exp_length r1) as He.
  destruct (match_exp r1) as [exp r2]. cbn [snd] in He.
  destruct frac, exp; injection H as _ <-; lia.
Qed.

Lemma strip_prefix_length (p s r : str) :
  strip_prefix p s = Some r -> List.length r + List.length p = List.length s.
Proof.
  revert s. induction p as [| x p IH]; intros s H; cbn [strip_prefix] in H.
  - injection H as <-. cbn. lia.
  - destruct s as [| y s]; [discriminate |].
    destruct (x =? y)%N; [| discriminate].
    apply IH in H. cbn [List.length]. lia.
Qed.

Lemma match_constant_length (s : str) (v : pyval) (r : str) :
  match_constant s = Scanned v r -> List.length r < List.length s.
Proof.
  unfold match_constant. intros H.
  repeat match type of H with
         | context [strip_prefix ?p s] =>
             let E := fresh "E" in
             destruct (strip_prefix p s) eqn:E;
             [apply strip_prefix_length in E; injection H as _ <-;
              cbn [lit List.length map list_ascii_of_string] in E; lia |]
         end.
  discriminate.
Qed.

(** Every scan that returns has read at least one character. *)
Lemma scan_length (depth : nat) :
  (forall s v r, scan_once depth s = Scanned v r -> List.length r < List.length s)
  /\ (forall s v r, array_items depth s = Scanned v r -> List.length r < List.length s)
  /\ (forall s v r, object_items depth s = Scanned v r -> List.length r < List.length s).
Proof.
  induction depth as [| depth (IHs & IHa & IHo)].
  - repeat split; intros s v r H; discriminate H.
  - repeat split; intros s v r H.
    + cbn [scan_once] in H. destruct s as [| c rest]; [discriminate |].
      cbn [List.length].
      destruct (c =? DQUOTE)%N.
      { destruct (scanstring rest) as [[v' r'] |] eqn:E; [| discriminate].
        apply scanstring_length in E. injection H as _ <-. lia. }
      destruct (c =? ch "{")%N.
      { pose proof (skip_ws_length rest) as Hw.
        destruct (skip_ws rest) as [| c' r']; [discriminate |].
        cbn [List.length] in Hw.
        destruct (c' =? ch "}")%N; [injection H as _ <-; lia |].
        destruct (object_items depth (c' :: r')) as [pairs r'' | |] eqn:E;
          try discriminate.
        apply IHo in E. cbn [List.length] in E. injection H as _ <-. lia. }
      destruct (c =? ch "[")%N.
      { pose proof (skip_ws_length rest) as Hw.
        destruct (skip_ws rest) as [| c' r']; [discriminate |].
        cbn [List.length] in Hw.
        destruct (c' =? ch "]")%N; [injection H as _ <-; lia |].
        destruct (array_items depth (c' :: r')) as [values r'' | |] eqn:E;
          try discriminate.
        apply IHa in E. cbn [List.length] in E. injection H as _ <-. lia. }
      destruct (match_number (c :: rest)) as [[v' r'] |] eqn:E.
      { apply match_number_length in E. injection H as _ <-.
        cbn [List.length] in E. lia. }
      apply match_constant_length in H. cbn [List.length] in H. lia.
    + cbn [array_items] in H.
      destruct (scan_once depth s) as [v1 r1 | |] eqn:E; try discriminate.
      apply IHs in E. pose proof (skip_ws_length r1) as Hw.
      destruct (skip_ws r1) as [| c r']; [discriminate |]. cbn [List.length] in Hw.
      destruct (c =? ch "]")%N; [injection H as _ <-; lia |].
      destruct (c =? ch ",")%N; [| discriminate].
      pose proof (skip_ws_length r') as Hw'.
      destruct (array_items depth (skip_ws r')) as [vs r'' | |] eqn:E';
        try discriminate.
      apply IHa in E'. injection H as _ <-. lia.
    + cbn [object_items] in H. destruct s as [| q r0]; [discriminate |].
      cbn [List.length].
      destruct (q =? DQUOTE)%N; [| discriminate].
      destruct (scanstring r0) as [[key r1] |] eqn:Ek; [| discriminate].
      apply scanstring_length in Ek. pose proof (skip_ws_length r1) as Hw1.
      destruct (skip_ws r1) as [| colon r2]; [discriminate |].
      cbn [List.length] in Hw1.
      destruct (colon =? ch ":")%N; [| discriminate].
      pose proof (skip_ws_length r2) as Hw2.
      destruct (scan_once depth (skip_ws r2)) as [v1 r3 | |] eqn:E; try discriminate.
      apply IHs in E. pose proof (skip_ws_length r3) as Hw3.
      destruct (skip_ws r3) as [| c r4]; [discriminate |]. cbn [List.length] in Hw3.
      destruct (c =? ch "}")%N; [injection H as _ <-; lia |].
      destruct (c =? ch ",")%N; [| discriminate].
      pose proof (skip_ws_length r4) as Hw4.
      destruct (object_items depth (skip_ws r4)) as [kvs r5 | |] eqn:E';
        try discriminate.
      apply IHo in E'. injection H as _ <-. lia.
Qed.

(** A depth of twice the length of the text, and one more, is never used
    up. *)
Lemma scan_deep_enough (depth : nat) :
  (forall s, 2 * List.length s + 1 <= depth -> scan_once depth s <> TooDeep)
  /\ (forall s, 2 * List.length s + 2 <= depth -> array_items depth s <> TooDeep)
  /\ (forall s, 2 * List.length s + 2 <= depth -> object_items depth s <> TooDeep).
Proof.
  induction depth as [| depth (IHs & IHa & IHo)].
  - repeat split; intros s H; lia.
  - repeat split; intros s Hd.
    + cbn [scan_once]. destruct s as [| c rest]; [discriminate |].
      cbn [List.length] in Hd.
      destruct (c =? DQUOTE)%N.
      { destruct (scanstring rest) as [[v' r'] |]; discriminate. }
      destruct (c =? ch "{")%N.
      { pose proof (skip_ws_length rest) as Hw.
        destruct (skip_ws rest) as [| c' r']; [discriminate |].
        destruct (c' =? ch "}")%N; [discriminate |].
        specialize (IHo (c' :: r')).
        destruct (object_items depth (c' :: r')); try discriminate.
        exfalso. apply IHo; [lia | reflexivity]. }
      destruct (c =? ch "[")%N.
      { pose proof (skip_ws_length rest) as Hw.
        destruct (skip_ws rest) as [| c' r']; [discriminate |].
        destruct (c' =? ch "]")%N; [discriminate |].
        specialize (IHa (c' :: r')).
        destruct (array_items depth (c' :: r')); try discriminate.
        exfalso. apply IHa; [lia | reflexivity]. }
      destruct (match_number (c :: rest)) as [[v' r'] |]; [discriminate |].
      unfold match_constant.
      repeat match goal with
             | |- context [strip_prefix ?p ?x] => destruct (strip_prefix p x)
             end; discriminate.
    + cbn [array_items].
      pose proof (proj1 (scan_length depth) s) as Hl.
      specialize (IHs s).
      destruct (scan_once depth s) as [v1 r1 | |]; [| discriminate | exfalso; apply IHs; [lia | reflexivity]].
      specialize (Hl v1 r1 eq_refl). pose proof (skip_ws_length r1) as Hw.
      destruct (skip_ws r1) as [| c r']; [discriminate |]. cbn [List.length] in Hw.
      destruct (c =? ch "]")%N; [discriminate |].
      destruct (c =? ch ",")%N; [| discriminate].
      pose proof (skip_ws_length r') as Hw'.
      specialize (IHa (skip_ws r')).
      destruct (array_items depth (skip_ws r')); try discriminate.
      exfalso. apply IHa; [lia | reflexivity].
    + cbn [object_items]. destruct s as [| q r0]; [discriminate |].
      cbn [List.length] in Hd.
      destruct (q =? DQUOTE)%N; [| discriminate].
      destruct (scanstring r0) as [[key r1] |] eqn:Ek; [| discriminate].
      apply scanstring_length in Ek. pose proof (skip_ws_length r1) as Hw1.
      destruct (skip_ws r1) as [| colon r2]; [discriminate |].
      cbn [List.length] in Hw1.
      destruct (colon =? ch ":")%N; [| discriminate].
      pose proof (skip_ws_length r2) as Hw2.
      pose proof (proj1 (scan_length depth) (skip_ws r2)) as Hl.
      specialize (IHs (skip_ws r2)).
      destruct (scan_once depth (skip_ws r2)) as [v1 r3 | |];
        [| discriminate | exfalso; apply IHs; [lia | reflexivity]].
      specialize (Hl v1 r3 eq_refl). pose proof (skip_ws_length r3) as Hw3.
      destruct (skip_ws r3) as [| c r4]; [discriminate |]. cbn [List.length] in Hw3.
      destruct (c =? ch "}")%N; [discriminate |].
      destruct (c =? ch ",")%N; [| discriminate].
      pose proof (skip_ws_length r4) as Hw4.
      specialize (IHo (skip_ws r4)).
      destruct (object_items depth (skip_ws r4)); try discriminate.
      exfalso. apply IHo; [lia | reflexivity].
Qed.

(** [decode] and [loads] return a value or fail on the text; the model
    adds no failure of its own. *)
Lemma decode_not_too_deep (s : str) : decode s <> inl RecursionError.
Proof.
  unfold decode.
  pose proof (proj1 (scan_deep_enough (2 * List.length s + 1)) (skip_ws s)) as H.
  pose proof (skip_ws_length s) as Hw.
  destruct (scan_once (2 * List.length s + 1) (skip_ws s)) as [v r | |].
  - destruct (skip_ws r); discriminate.
  - discriminate.
  - exfalso. apply H; [lia | reflexivity].
Qed.

Lemma loads_not_too_deep (o : pyval) : loads o <> inl RecursionError.
Proof.
  destruct o as [| b | z | l | t | items | items]; try discriminate.
  cbn [loads]. destruct (starts_with_bom t); [discriminate |].
  apply decode_not_too_deep.
Qed.

End JSONDecoderFacts.

(** ** The response step *)

Lemma loads_str (o v : pyval) :
  JSONDecoder.loads o = inr v -> exists s, o = PStr s.
Proof.
  destruct o; try discriminate. intros _. eexists. reflexivity.
Qed.

(** The step returns item [0] of the parsed body when the body parses,
    has an item [0] and that item parses; it raises the one [ValueError]
    otherwise. *)
Lemma parse_response_cases (r : response) :
  parse_response r =
  match JSONDecoder.loads (PStr (text r)) with
  | inr parsed =>
      match getitem0 parsed with
      | inr item =>
          match JSONDecoder.loads item with
          | inr _ => inr item
          | inl _ => inl (ValueError (incorrect_output_format ++ text r))
          end
      | inl _ => inl (ValueError (incorrect_output_format ++ text r))
      end
  | inl _ => inl (ValueError (incorrect_output_format ++ text r))
  end.
Proof.
  unfold parse_response, try_block.
  destruct (JSONDecoder.loads (PStr (text r))) as [e | parsed];
    cbn [bind_outcome try_except]; [reflexivity |].
  destruct (getitem0 parsed) as [e | item] eqn:Ei;
    cbn [bind_outcome try_except]; [reflexivity |].
  destruct (JSONDecoder.loads item) as [e | inner];
    cbn [bind_outcome try_except]; [reflexivity |].
  exact Ei.
Qed.



(** ** One call, step by step *)

(** A write to a dict of the store is what the next read of it sees. *)
Lemma load_after_store (l : loc) (v : pyval) (st : state) :
  fst ((_ <- store l v ;; load l)%M st) = inr v.
Proof. unfold bind, store, load. cbn [fst heap]. now rewrite Nat.eqb_refl. Qed.

Lemma skipn_length_app (A : Type) (l l' : list A) :
  skipn (List.length l) (l ++ l') = l'.
Proof. induction l as [| a l IH]; [reflexivity | exact IH]. Qed.

Lemma sent_app (es es' : list event) : sent (es ++ es') = sent es ++ sent es'.
Proof.
  induction es as [| e es IH]; [reflexivity |].
  destruct e; cbn [app sent]; rewrite IH; reflexivity.
Qed.

Section ClientFacts.

Variable floatstr : str -> str.

(** What a call returns and the events it adds, by what the world does. *)
Lemma score_run (w : World) (image service_endpoint_url : str)
    (service_key : option str) (parameters : option loc) (st : state) :
  score_image_with_http floatstr w image service_endpoint_url service_key parameters st
  = match open_rb w image with
    | inl e => (inl e, st)
    | inr f =>
        match read f with
        | inl e =>
            (inl e, {| heap := heap st;
                       trace := trace st ++ [Open image; Close image] |})
        | inr content =>
            let rq := request_for floatstr service_endpoint_url service_key content
                        (heap st (parameters_object parameters)) in
            (match send w rq with
             | inl e => inl e
             | inr r => parse_response r
             end,
             {| heap := heap st;
                trace := trace st ++ [Open image; Close image; Send rq] |})
        end
    end.
Proof.
  unfold score_image_with_http, bind, with_open.
  destruct (open_rb w image) as [e | f]; [reflexivity |].
  unfold emit, lift, ret, bind, load, requests_post, emit, lift, bind.
  destruct (read f) as [e | content]; cbn [heap trace getvalue].
  - rewrite <- app_assoc. reflexivity.
  - fold (request_for floatstr service_endpoint_url service_key content
                      (heap st (parameters_object parameters))).
    rewrite <- !app_assoc. cbn [app].
    destruct (send w _) as [e | r]; reflexivity.
Qed.

Lemma score_events (w : World) (image service_endpoint_url : str)
    (service_key : option str) (parameters : option loc) (st : state) :
  events_of (score_image_with_http floatstr w image service_endpoint_url
               service_key parameters) st
  = match open_rb w image with
    | inl e => []
    | inr f =>
        match read f with
        | inl e => [Open image; Close image]
        | inr content =>
            [Open image; Close image;
             Send (request_for floatstr service_endpoint_url service_key content
                     (heap st (parameters_object parameters)))]
        end
    end.
Proof.
  unfold events_of. rewrite score_run.
  destruct (open_rb w image) as [e | f]; cbn [snd].
  - rewrite <- (app_nil_r (trace st)) at 2. apply skipn_length_app.
  - destruct (read f) as [e | content]; cbn [snd trace]; apply skipn_length_app.
Qed.

Lemma score_heap (w : World) (image service_endpoint_url : str)
    (service_key : option str) (parameters : option loc) (st : state) :
  heap (snd (score_image_with_http floatstr w image service_endpoint_url
               service_key parameters st)) = heap st.
Proof.
  rewrite score_run.
  destruct (open_rb w image) as [e | f]; [reflexivity |].
  destruct (read f); reflexivity.
Qed.

Lemma score_trace (w : World) (image service_endpoint_url : str)
    (service_key : option str) (parameters : option loc) (st : state) :
  trace (snd (score_image_with_http floatstr w image service_endpoint_url
                service_key parameters st))
  = trace st ++ events_of (score_image_with_http floatstr w image
                             service_endpoint_url service_key parameters) st.
Proof.
  rewrite score_events, score_run.
  destruct (open_rb w image) as [e | f]; [symmetry; apply app_nil_r |].
  destruct (read f); reflexivity.
Qed.

(** Calls that leave [parameters] out, from a state in which the default
    dict is empty: the dict stays as it is and every request carries an
    empty [parameters] object. *)
Lemma run_calls_default (cs : list call) :
  forall st : state,
    Forall (fun c => call_parameters c = None) cs ->
    heap st parameters_default = PDict [] ->
    exists es : list event,
      trace (run_calls floatstr cs st) = trace st ++ es
      /\ heap (run_calls floatstr cs st) = heap st
      /\ Forall (fun rq =>
                   exists s : str,
                     data rq = JSONEncoder.dumps floatstr
                                 (PList [PDict [(lit "image_in_base64", PStr s);
                                                (lit "parameters", PDict [])]]))
                (sent es).
Proof.
  induction cs as [| c cs IH]; intros st Hcs Hd.
  - exists []. cbn [run_calls sent]. rewrite app_nil_r. auto.
  - inversion Hcs as [| c' cs' Hc Hcs']; subst. cbn [run_calls].
    set (run := score_image_with_http floatstr (call_world c) (call_image c)
                  (call_url c) (call_key c) (call_parameters c)).
    pose proof (score_heap (call_world c) (call_image c) (call_url c)
                  (call_key c) (call_parameters c) st) as Hh.
    pose proof (score_trace (call_world c) (call_image c) (call_url c)
                  (call_key c) (call_parameters c) st) as Ht.
    pose proof (score_events (call_world c) (call_image c) (call_url c)
                  (call_key c) (call_parameters c) st) as He.
    fold run in Hh, Ht, He.
    destruct (IH (snd (run st)) Hcs') as (es & Hes & Hheap & Hsent).
    { rewrite Hh. exact Hd. }
    exists (events_of run st ++ es). repeat split.
    + rewrite Hes, Ht, app_assoc. reflexivity.
    + rewrite Hheap. exact Hh.
    + rewrite sent_app. apply Forall_app. split; [| exact Hsent].
      rewrite He. destruct (open_rb (call_world c) (call_image c)) as [e | f];
        [constructor |].
      destruct (read f) as [e | content]; [constructor |].
      cbn [sent]. constructor; [| constructor].
      exists (format_0 (Base64.b64encode content)).
      rewrite Hc. cbn [parameters_object]. rewrite Hd. reflexivity.
Qed.

End ClientFacts.

(** ** The statements of the specification *)

Section Claims.

Variable floatstr : str -> str.

(** C1, as amended.  When the file holds the octets [content], the
    [image_in_base64] field of the one request body is the text [b'E']
    (the [repr] of the bytes object [b64encode] returned), where [E] is a
    base64 text: alphabet and pad characters only, no line break, and
    [b64decode] of [E] is exactly [content]. *)
Theorem image_in_base64_round_trip (w : World) (image service_endpoint_url : str)
    (service_key : option str) (parameters : option loc) (st : state)
    (content : bytes) :
  read_file w image = inr content ->
  exists E : str,
    map data (sent (events_of (score_image_with_http floatstr w image
                                 service_endpoint_url service_key parameters) st))
    = [JSONEncoder.dumps floatstr
         (PList [PDict [(lit "image_in_base64", PStr (lit "b'" ++ E ++ lit "'"));
                        (lit "parameters", heap st (parameters_object parameters))]])]
    /\ forallb Base64.b64char E = true
    /\ ~ In 10 E /\ ~ In 13 E
    /\ Base64.b64decode E = inr content.
Proof.
  unfold read_file, bind_outcome. intros Hread.
  exists (decode_ascii (Base64.b64encode content)).
  pose proof (Base64Facts.b64encode_b64char content) as Hchars.
  destruct (Base64Facts.b64_text_ascii _ Hchars) as (Hascii & Hlf & Hcr).
  rewrite score_events.
  destruct (open_rb w image) as [e | f]; [discriminate |]. rewrite Hread.
  repeat split; try assumption.
  - cbn [sent map data request_for]. unfold format_0.
    rewrite Base64Facts.bytes_repr_b64 by exact Hchars. reflexivity.
  - unfold Base64.b64decode. rewrite Hascii, Base64Facts.a2b_b2a. reflexivity.
Qed.

(** C2, as amended.  In the scenario (the file holds the octets 0 to 9,
    no credential, an empty [parameters] mapping, the mock response) the
    call opens and closes the file, posts the body
    [[{"image_in_base64": "b'AAECAwQFBgcICQ=='", "parameters": {}}]] and
    returns the text [{"label":"cat","score":0.91}]. *)
Theorem scenario_end_to_end (parameters : option loc) :
  score_image_with_http floatstr Scenario.world (lit "cat.jpg") Scenario.endpoint
    None parameters Scenario.initial
  = (inr (PStr (jlit "{`label`:`cat`,`score`:0.91}")),
     {| heap := heap Scenario.initial;
        trace :=
          [Open (lit "cat.jpg"); Close (lit "cat.jpg");
           Send {| method := lit "POST";
                   url := Scenario.endpoint;
                   data := jlit "[{`image_in_base64`: `b'AAECAwQFBgcICQ=='`, `parameters`: {}}]";
                   headers := [(lit "Content-Type", lit "application/json")] |}] |}).
Proof. rewrite score_run. vm_compute. reflexivity. Qed.


(** C4.  The request carries no [Authorization] header when the
    credential is [None], and the value ["Bearer"], one space and the
    token when a token is given. *)
Theorem authorization_header (w : World) (image service_endpoint_url : str)
    (service_key : option str) (parameters : option loc) (st : state)
    (rq : request) :
  In rq (sent (events_of (score_image_with_http floatstr w image
                            service_endpoint_url service_key parameters) st)) ->
  get_header (lit "Authorization") rq
  = option_map (fun token => lit "Bearer" ++ lit " " ++ token) service_key.
Proof.
  rewrite score_events.
  destruct (open_rb w image) as [e | f]; [intros [] |].
  destruct (read f) as [e | content]; [intros [] |].
  cbn [sent In]. intros [<- | []].
  unfold get_header, request_for. cbn [headers].
  destruct service_key as [token |]; cbn [find fst option_map].
  - destruct (list_eq_dec N.eq_dec (lit "Content-Type") (lit "Authorization"))
      as [E | _]; [vm_compute in E; discriminate |].
    destruct (list_eq_dec N.eq_dec (lit "Authorization") (lit "Authorization"))
      as [_ | E]; [reflexivity | congruence].
  - destruct (list_eq_dec N.eq_dec (lit "Content-Type") (lit "Authorization"))
      as [E | _]; [vm_compute in E; discriminate | reflexivity].
Qed.



(** C7.  The status code plays no part: responses with the same body are
    handled alike, a call gives the same result and the same events
    whatever status codes the server answers with, a well-formed body
    sent with status 500 is returned, and a malformed body sent with
    status 200 fails. *)
Theorem status_code_ignored :
  (forall (code1 code2 : Z) (body : str),
      parse_response {| status_code := code1; text := body |}
      = parse_response {| status_code := code2; text := body |})
  /\ (forall (code : response -> Z) (w : World) (image service_endpoint_url : str)
             (service_key : option str) (parameters : option loc) (st : state),
         score_image_with_http floatstr (with_status code w) image
           service_endpoint_url service_key parameters st
         = score_image_with_http floatstr w image service_endpoint_url
             service_key parameters st)
  /\ parse_response {| status_code := 500; text := text Scenario.mock_response |}
     = inr (PStr (jlit "{`label`:`cat`,`score`:0.91}"))
  /\ parse_response {| status_code := 200; text := jlit "{`x`:1}" |}
     = inl (ValueError (incorrect_output_format ++ jlit "{`x`:1}")).
Proof.
  split; [| split; [| split; vm_compute; reflexivity]].
  - intros code1 code2 body. rewrite !parse_response_cases. reflexivity.
  - intros code w image service_endpoint_url service_key parameters st.
    rewrite !score_run. cbn [with_status open_rb send].
    destruct (open_rb w image) as [e | f]; [reflexivity |].
    destruct (read f) as [e | content]; [reflexivity |].
    cbv zeta. destruct (send w _) as [e | r]; [reflexivity |].
    rewrite !parse_response_cases. reflexivity.
Qed.


(** C9.  A call leaves every dict of the store as it found it, the one
    [parameters] stands for included; so the default dict, empty when the
    function is defined, is still empty after any number of calls that
    rely on it, and each of their requests carries an empty [parameters]
    object. *)
Theorem parameters_never_mutated :
  (forall (w : World) (image service_endpoint_url : str)
          (service_key : option str) (parameters : option loc) (st : state),
      heap (snd (score_image_with_http floatstr w image service_endpoint_url
                   service_key parameters st)) = heap st)
  /\ (forall (cs : list call) (st : state),
         Forall (fun c => call_parameters c = None) cs ->
         heap st parameters_default = PDict [] ->
         heap (run_calls floatstr cs st) = heap st
         /\ Forall (fun rq =>
                      exists s : str,
                        data rq = JSONEncoder.dumps floatstr
                                    (PList [PDict [(lit "image_in_base64", PStr s);
                                                   (lit "parameters", PDict [])]]))
                   (sent (skipn (List.length (trace st))
                                (trace (run_calls floatstr cs st))))).
Proof.
  split; [apply score_heap |].
  intros cs st Hcs Hd.
  destruct (run_calls_default floatstr cs st Hcs Hd) as (es & Ht & Hh & Hs).
  split; [exact Hh |]. rewrite Ht, skipn_length_app. exact Hs.
Qed.

(** C10.  The response step returns a text or raises the one
    [ValueError]: whatever the [try] block raises is turned into it, be
    it the [KeyError] of subscripting an object, the [TypeError] of
    subscripting a number or of parsing a first element that is no
    string, the [IndexError] of an empty array or the decoder's own
    error. *)
Theorem single_error_kind :
  (forall r : response,
      (exists s : str, parse_response r = inr (PStr s))
      \/ parse_response r = inl (ValueError (incorrect_output_format ++ text r)))
  /\ (forall (r : response) (e : exn),
         try_block r = inl e ->
         parse_response r = inl (ValueError (incorrect_output_format ++ text r)))
  /\ try_block {| status_code := 200; text := jlit "{`x`:1}" |} = inl KeyError
  /\ try_block {| status_code := 200; text := jlit "7" |} = inl TypeError
  /\ try_block {| status_code := 200; text := jlit "[7]" |} = inl TypeError
  /\ try_block {| status_code := 200; text := jlit "[]" |} = inl IndexError
  /\ try_block {| status_code := 200; text := jlit "nope" |} = inl JSONDecodeError.
Proof.
  split; [| split; [| repeat split; vm_compute; reflexivity]].
  - intros r. rewrite parse_response_cases.
    destruct (JSONDecoder.loads (PStr (text r))) as [e | parsed]; [right; reflexivity |].
    destruct (getitem0 parsed) as [e | item]; [right; reflexivity |].
    destruct (JSONDecoder.loads item) as [e | inner] eqn:Ei; [right; reflexivity |].
    destruct (loads_str item inner Ei) as [s ->]. left. exists s. reflexivity.
  - intros r e He. unfold parse_response. rewrite He. reflexivity.
Qed.

End Claims.

(** ** The statements at the scenario *)

(** C1 at the scenario: the file is read, and the field of the request
    body is [b'E'] with [E] a base64 text of the ten octets. *)
Lemma image_in_base64_round_trip_witness :
  read_file Scenario.world (lit "cat.jpg") = inr Scenario.cat_jpg
  /\ exists E : str,
      map data (sent (events_of (score_image_with_http Scenario.floatstr
                                   Scenario.world (lit "cat.jpg") Scenario.endpoint
                                   None None) Scenario.initial))
      = [JSONEncoder.dumps Scenario.floatstr
           (PList [PDict [(lit "image_in_base64", PStr (lit "b'" ++ E ++ lit "'"));
                          (lit "parameters",
                           heap Scenario.initial (parameters_object None))]])]
      /\ forallb Base64.b64char E = true
      /\ ~ In 10 E /\ ~ In 13 E
      /\ Base64.b64decode E = inr Scenario.cat_jpg.
Proof.
  split; [reflexivity |].
  apply (image_in_base64_round_trip Scenario.floatstr Scenario.world (lit "cat.jpg")
           Scenario.endpoint None None Scenario.initial Scenario.cat_jpg).
  reflexivity.
Defined.

(** C1 as stated fails at the scenario: the field is the text
    [b'AAECAwQFBgcICQ=='], which holds two quotes, so it is no base64
    text, and [b64decode] does not give the ten octets back for it. *)
Lemma image_in_base64_not_base64 :
  map data (sent (events_of (score_image_with_http Scenario.floatstr
                               Scenario.world (lit "cat.jpg") Scenario.endpoint
                               None None) Scenario.initial))
  = [JSONEncoder.dumps Scenario.floatstr
       (PList [PDict [(lit "image_in_base64", PStr (lit "b'AAECAwQFBgcICQ=='"));
                      (lit "parameters", PDict [])]])]
  /\ format_0 (Base64.b64encode Scenario.cat_jpg) = lit "b'AAECAwQFBgcICQ=='"
  /\ forallb Base64.b64char (lit "b'AAECAwQFBgcICQ=='") = false
  /\ Base64.b64decode (lit "b'AAECAwQFBgcICQ=='") <> inr Scenario.cat_jpg.
Proof.
  repeat split; try (vm_compute; reflexivity).
  vm_compute. discriminate.
Qed.

(** C2 as stated fails: the body that is sent is not the text
    [[{"image_in_base64": "AAECAwQFBgcICQ==", "parameters": {}}]]. *)
Lemma scenario_body_differs :
  map data (sent (events_of (score_image_with_http Scenario.floatstr
                               Scenario.world (lit "cat.jpg") Scenario.endpoint
                               None None) Scenario.initial))
  <> [jlit "[{`image_in_base64`: `AAECAwQFBgcICQ==`, `parameters`: {}}]"].
Proof. vm_compute. discriminate. Qed.



(** C4 at the scenario, with the token [abc123] and without a token. *)
Lemma authorization_header_witness :
  get_header (lit "Authorization")
    (request_for Scenario.floatstr Scenario.endpoint (Some (lit "abc123"))
       Scenario.cat_jpg (PDict []))
  = Some (lit "Bearer abc123")
  /\ get_header (lit "Authorization")
       (request_for Scenario.floatstr Scenario.endpoint None
          Scenario.cat_jpg (PDict []))
     = None.
Proof.
  split.
  - apply (authorization_header Scenario.floatstr Scenario.world (lit "cat.jpg")
             Scenario.endpoint (Some (lit "abc123")) None Scenario.initial).
    left. reflexivity.
  - apply (authorization_header Scenario.floatstr Scenario.world (lit "cat.jpg")
             Scenario.endpoint None None Scenario.initial).
    left. reflexivity.
Defined.




(** C9 at two calls of the scenario that leave [parameters] out. *)
Lemma parameters_never_mutated_witness :
  let c := {| call_world := Scenario.world; call_image := lit "cat.jpg";
              call_url := Scenario.endpoint; call_key := None;
              call_parameters := None |} in
  heap (run_calls Scenario.floatstr [c; c] Scenario.initial) = heap Scenario.initial
  /\ Forall (fun rq =>
               exists s : str,
                 data rq = JSONEncoder.dumps Scenario.floatstr
                             (PList [PDict [(lit "image_in_base64", PStr s);
                                            (lit "parameters", PDict [])]]))
            (sent (skipn (List.length (trace Scenario.initial))
                         (trace (run_calls Scenario.floatstr [c; c]
                                           Scenario.initial)))).
Proof.
  intros c.
  apply (proj2 (parameters_never_mutated Scenario.floatstr) [c; c] Scenario.initial).
  - repeat constructor.
  - reflexivity.
Defined.

(** C10 at the body [{"x":1}]: the [KeyError] becomes the [ValueError]. *)
Lemma single_error_kind_witness :
  try_block {| status_code := 200; text := jlit "{`x`:1}" |} = inl KeyError
  /\ parse_response {| status_code := 200; text := jlit "{`x`:1}" |}
     = inl (ValueError (incorrect_output_format ++ jlit "{`x`:1}")).
Proof.
  assert (try_block {| status_code := 200; text := jlit "{`x`:1}" |} = inl KeyError)
    as H by (vm_compute; reflexivity).
  split; [exact H |].
  exact (proj1 (proj2 single_error_kind)
               {| status_code := 200; text := jlit "{`x`:1}" |} KeyError H).
Defined.

(** * Part III: more about the client *)

(** ** What a call does when the network fails, and in which order *)

Section MoreClientFacts.

Variable floatstr : str -> str.

(** X1.  When the file is read and [requests.post] raises, the call
    raises that very exception, not the [ValueError] of the response
    step: the post stands outside the [try] block.  The file has been
    closed and the one request has been tried. *)
Theorem transport_error_propagates (w : World) (image service_endpoint_url : str)
    (service_key : option str) (parameters : option loc) (st : state)
    (content : bytes) (e : exn) :
  read_file w image = inr content ->
  send w (request_for floatstr service_endpoint_url service_key content
            (heap st (parameters_object parameters))) = inl e ->
  fst (score_image_with_http floatstr w image service_endpoint_url service_key
         parameters st) = inl e
  /\ events_of (score_image_with_http floatstr w image service_endpoint_url
                  service_key parameters) st
     = [Open image; Close image;
        Send (request_for floatstr service_endpoint_url service_key content
                (heap st (parameters_object parameters)))].
Proof.
  unfold read_file, bind_outcome. intros Hread Hsend.
  rewrite score_events, score_run.
  destruct (open_rb w image) as [e0 | f]; [discriminate |]. rewrite Hread.
  cbv zeta. rewrite Hsend. split; reflexivity.
Qed.

(** X2.  Whenever a call sends a request, the file has been opened and
    closed before, no file is open at that moment, and nothing happens
    after the request: one request, no retry. *)
Theorem file_closed_before_request (w : World) (image service_endpoint_url : str)
    (service_key : option str) (parameters : option loc) (st : state)
    (before after : list event) (rq : request) :
  events_of (score_image_with_http floatstr w image service_endpoint_url
               service_key parameters) st = before ++ Send rq :: after ->
  before = [Open image; Close image] /\ left_open before [] = [] /\ after = [].
Proof.
  rewrite score_events.
  assert (remove_first image [image] = []) as Hclose.
  { cbn [remove_first]. destruct (list_eq_dec N.eq_dec image image); congruence. }
  destruct (open_rb w image) as [e | f].
  { destruct before; discriminate. }
  destruct (read f) as [e | content].
  - destruct before as [| e1 [| e2 [| e3 before]]]; discriminate.
  - destruct before as [| e1 [| e2 [| e3 before]]]; try discriminate.
    + intros H. injection H as <- <- _ <-. auto.
    + intros H. injection H as _ _ _ H. destruct before; discriminate.
Qed.

(** X3.  The events of a call do not depend on the server: whatever it
    answers, and whether it answers at all, the same file is opened and
    closed and the same request is sent. *)
Theorem events_independent_of_server (w : World)
    (send' : request -> outcome response) (image service_endpoint_url : str)
    (service_key : option str) (parameters : option loc) (st : state) :
  events_of (score_image_with_http floatstr
               {| open_rb := open_rb w; send := send' |} image
               service_endpoint_url service_key parameters) st
  = events_of (score_image_with_http floatstr w image service_endpoint_url
                 service_key parameters) st.
Proof. rewrite !score_events. reflexivity. Qed.

End MoreClientFacts.

(** ** The request body *)

Lemma plain_json_escape (s : str) :
  forallb plain_json s = true -> flat_map JSONEncoder.ascii_escape_unichar s = s.
Proof.
  induction s as [| c s IH]; [reflexivity |].
  cbn [forallb flat_map]. intros H. apply andb_prop in H. destruct H as [Hc Hs].
  rewrite (IH Hs). unfold JSONEncoder.ascii_escape_unichar.
  unfold plain_json in Hc. rewrite Hc. reflexivity.
Qed.

Lemma b64_text_plain_json (b : bytes) :
  forallb Base64.b64char (decode_ascii b) = true ->
  forallb plain_json (decode_ascii b) = true.
Proof.
  induction b as [| x b IH]; [reflexivity |].
  cbn [decode_ascii map forallb]. intros H. apply andb_prop in H.
  destruct H as [Hx Hb]. fold (decode_ascii b) in *. rewrite (IH Hb), andb_true_r.
  destruct (Base64Facts.b64char_plain x Hx) as (_ & Hq & Hbs & _ & _ & _ & Hlo & Hhi).
  unfold plain_json.
  apply N.eqb_neq in Hq, Hbs. rewrite Hq, Hbs.
  replace (ch " " <=? Byte.to_N x) with true by (symmetry; apply N.leb_le; exact Hlo).
  replace (Byte.to_N x <=? ch "~") with true
    by (symmetry; apply N.leb_le; change (ch "~") with 126; lia).
  reflexivity.
Qed.

Lemma b2a_base64_length (s : list N) :
  List.length (Base64.b2a_base64 s) = (4 * ((List.length s + 2) / 3))%nat.
Proof.
  induction s as [| x | x y | x y z s IH] using Base64Facts.list_ind3;
    try reflexivity.
  cbn [Base64.b2a_base64 List.length]. rewrite IH.
  replace (S (S (S (List.length s))) + 2)%nat with (List.length s + 2 + 1 * 3)%nat by lia.
  rewrite Nat.div_add by lia. lia.
Qed.

Section BodyFacts.

Variable floatstr : str -> str.

(** What [json.dumps] writes for the payload: the base64 text goes
    through [encode_basestring_ascii] as it is. *)
Lemma dumps_payload (content : bytes) (p : pyval) :
  JSONEncoder.dumps floatstr
    (PList [PDict [(lit "image_in_base64",
                    PStr (format_0 (Base64.b64encode content)));
                   (lit "parameters", p)]])
  = body_before_image ++ decode_ascii (Base64.b64encode content)
    ++ body_after_image ++ JSONEncoder.dumps floatstr p ++ body_end.
Proof.
  pose proof (Base64Facts.b64encode_b64char content) as Hchars.
  unfold format_0.
  rewrite (Base64Facts.bytes_repr_b64 _ Hchars).
  cbn [JSONEncoder.dumps map join fst snd].
  unfold JSONEncoder.encode_basestring_ascii at 2.
  rewrite !flat_map_app, (plain_json_escape _ (b64_text_plain_json _ Hchars)).
  change (flat_map JSONEncoder.ascii_escape_unichar (lit "b'")) with (lit "b'").
  change (flat_map JSONEncoder.ascii_escape_unichar (lit "'")) with (lit "'").
  change (JSONEncoder.encode_basestring_ascii (lit "image_in_base64"))
    with (jlit "`image_in_base64`").
  change (JSONEncoder.encode_basestring_ascii (lit "parameters"))
    with (jlit "`parameters`").
  repeat rewrite <- app_assoc. reflexivity.
Qed.

(** X4.  The body of a request is [body_before_image], the base64 text
    of the file, [body_after_image], the serialized [parameters] and
    [body_end], whatever the file holds and whatever the parameters
    are. *)
Theorem request_body_form (service_endpoint_url : str) (service_key : option str)
    (content : bytes) (p : pyval) :
  data (request_for floatstr service_endpoint_url service_key content p)
  = body_before_image ++ decode_ascii (Base64.b64encode content)
    ++ body_after_image ++ JSONEncoder.dumps floatstr p ++ body_end.
Proof. unfold request_for, data. apply dumps_payload. Qed.

(** X5.  Two requests with the same parameters and the same body were
    built from the same file content: the body determines the image. *)
Theorem request_body_injective (url1 url2 : str) (key1 key2 : option str)
    (content1 content2 : bytes) (p : pyval) :
  data (request_for floatstr url1 key1 content1 p)
  = data (request_for floatstr url2 key2 content2 p) ->
  content1 = content2.
Proof.
  unfold request_for, data. rewrite !dumps_payload. intros H.
  apply app_inv_head in H. rewrite !app_assoc in H.
  do 3 apply app_inv_tail in H.
  pose proof (Base64Facts.a2b_b2a content1) as H1.
  pose proof (Base64Facts.a2b_b2a content2) as H2.
  rewrite H in H1. rewrite H1 in H2. injection H2 as ->. reflexivity.
Qed.

End BodyFacts.

(** X6.  The [image_in_base64] field of a file of [n] octets has
    [4 * ceil(n / 3) + 3] characters; an empty file is sent as [b'']. *)
Theorem image_field_length (content : bytes) :
  List.length (format_0 (Base64.b64encode content))
  = (4 * ((List.length content + 2) / 3) + 3)%nat
  /\ format_0 (Base64.b64encode []) = lit "b''".
Proof.
  split; [| reflexivity].
  unfold format_0.
  rewrite (Base64Facts.bytes_repr_b64 _ (Base64Facts.b64encode_b64char content)).
  unfold decode_ascii, Base64.b64encode.
  rewrite !length_app, length_map, b2a_base64_length, length_map.
  cbn [lit map list_ascii_of_string List.length]. lia.
Qed.

(** ** Reading a request body back *)

Module RequestBodyFacts.
Import JSONDecoder.

Lemma scanstring_plain (s rest : str) :
  forallb plain_json s = true -> scanstring (s ++ DQUOTE :: rest) = Some (s, rest).
Proof.
  induction s as [| c s IH]; cbn [app forallb scanstring].
  - intros _. rewrite N.eqb_refl. reflexivity.
  - intros H. apply andb_prop in H. destruct H as [Hc Hs].
    unfold plain_json in Hc.
    repeat (apply andb_prop in Hc; destruct Hc as [Hc ?]).
    repeat match goal with
           | H : negb _ = true |- _ => apply negb_true_iff in H
           end.
    apply N.leb_le in Hc. change (ch " ") with 32 in Hc.
    replace (c =? DQUOTE) with false by (symmetry; assumption).
    replace (c =? BACKSLASH) with false by (symmetry; assumption).
    replace (c <=? 31) with false by (symmetry; apply N.leb_gt; lia).
    rewrite (IH Hs). reflexivity.
Qed.

Lemma skip_ws_run (w : str) (c : N) (r : str) :
  forallb is_ws w = true -> is_ws c = false -> skip_ws (w ++ c :: r) = c :: r.
Proof.
  intros Hw Hc. induction w as [| x w IH]; cbn [app skip_ws forallb] in *.
  - rewrite Hc. reflexivity.
  - apply andb_prop in Hw. destruct Hw as [Hx Hw]. rewrite Hx. apply IH, Hw.
Qed.

Lemma scan_once_array (d : nat) (rest : str) :
  scan_once (S d) (ch "[" :: rest)
  = match skip_ws rest with
    | c' :: r =>
        if c' =? ch "]" then Scanned (PList []) r
        else match array_items d (c' :: r) with
             | Scanned values r' => Scanned (PList values) r'
             | Failed => Failed
             | TooDeep => TooDeep
             end
    | [] => Failed
    end.
Proof. reflexivity. Qed.

Lemma scan_once_object (d : nat) (rest : str) :
  scan_once (S d) (ch "{" :: rest)
  = match skip_ws rest with
    | c' :: r =>
        if c' =? ch "}" then Scanned (PDict []) r
        else match object_items d (c' :: r) with
             | Scanned pairs r' =>
                 Scanned (PDict (fold_left (fun d kv => dict_setitem d (fst kv) (snd kv))
                                           pairs [])) r'
             | Failed => Failed
             | TooDeep => TooDeep
             end
    | [] => Failed
    end.
Proof. reflexivity. Qed.

Lemma scan_once_string (d : nat) (rest : str) :
  scan_once (S d) (DQUOTE :: rest)
  = match scanstring rest with
    | Some (v, r) => Scanned (PStr v) r
    | None => Failed
    end.
Proof. reflexivity. Qed.

Lemma array_items_step (d : nat) (s : str) :
  array_items (S d) s
  = match scan_once d s with
    | Scanned v r =>
        match skip_ws r with
        | c :: r' =>
            if c =? ch "]" then Scanned [v] r'
            else if c =? ch "," then
              match array_items d (skip_ws r') with
              | Scanned vs r'' => Scanned (v :: vs) r''
              | Failed => Failed
              | TooDeep => TooDeep
              end
            else Failed
        | [] => Failed
        end
    | Failed => Failed
    | TooDeep => TooDeep
    end.
Proof. reflexivity. Qed.

Lemma object_items_step (d : nat) (r : str) :
  object_items (S d) (DQUOTE :: r)
  = match scanstring r with
    | Some (key, r1) =>
        match skip_ws r1 with
        | colon :: r2 =>
            if colon =? ch ":" then
              match scan_once d (skip_ws r2) with
              | Scanned v r3 =>
                  match skip_ws r3 with
                  | c :: r4 =>
                      if c =? ch "}" then Scanned [(key, v)] r4
                      else if c =? ch "," then
                        match object_items d (skip_ws r4) with
                        | Scanned kvs r5 => Scanned ((key, v) :: kvs) r5
                        | Failed => Failed
                        | TooDeep => TooDeep
                        end
                      else Failed
                  | [] => Failed
                  end
              | Failed => Failed
              | TooDeep => TooDeep
              end
            else Failed
        | [] => Failed
        end
    | None => Failed
    end.
Proof. reflexivity. Qed.

Lemma skip_ws_head (c : N) (r : str) : is_ws c = false -> skip_ws (c :: r) = c :: r.
Proof. intros H. cbn [skip_ws]. rewrite H. reflexivity. Qed.

(** The text of a one-element array that holds an object with the keys
    [image_in_base64], a string, and [parameters], an empty object, with
    any white space after the colons and the comma. *)
Lemma scan_request_body (w1 w2 w3 field : str) (d : nat) :
  forallb is_ws w1 = true -> forallb is_ws w2 = true -> forallb is_ws w3 = true ->
  forallb plain_json field = true ->
  scan_once (6 + d)
    (ch "[" :: ch "{" :: DQUOTE :: lit "image_in_base64" ++ DQUOTE :: ch ":" :: w1
     ++ DQUOTE :: field ++ DQUOTE :: ch "," :: w2
     ++ DQUOTE :: lit "parameters" ++ DQUOTE :: ch ":" :: w3 ++ lit "{}}]")
  = Scanned (PList [PDict [(lit "image_in_base64", PStr field);
                           (lit "parameters", PDict [])]]) [].
Proof.
  intros H1 H2 H3 Hf.
  change (6 + d)%nat with (S (S (S (S (S (S d)))))). 
  assert (forall r, skip_ws (w1 ++ DQUOTE :: r) = DQUOTE :: r) as S1
    by (intros r; apply skip_ws_run; [exact H1 | reflexivity]).
  assert (forall r, skip_ws (w2 ++ DQUOTE :: r) = DQUOTE :: r) as S2
    by (intros r; apply skip_ws_run; [exact H2 | reflexivity]).
  assert (skip_ws (w3 ++ lit "{}}]") = lit "{}}]") as S3
    by (apply (skip_ws_run w3 (ch "{") (lit "}}]")); [exact H3 | reflexivity]).
  assert (forall r, scanstring (lit "image_in_base64" ++ DQUOTE :: r)
                    = Some (lit "image_in_base64", r)) as K1
    by (intros r; apply scanstring_plain; reflexivity).
  assert (forall r, scanstring (lit "parameters" ++ DQUOTE :: r)
                    = Some (lit "parameters", r)) as K2
    by (intros r; apply scanstring_plain; reflexivity).
  pose proof (fun r => scanstring_plain field r Hf) as F.
  rewrite scan_once_array, skip_ws_head by reflexivity.
  change (ch "{" =? ch "]") with false. cbv iota.
  rewrite array_items_step, scan_once_object, skip_ws_head by reflexivity.
  change (DQUOTE =? ch "}") with false. cbv iota.
  rewrite object_items_step, K1, skip_ws_head by reflexivity.
  change (ch ":" =? ch ":") with true. cbv iota.
  rewrite S1, scan_once_string, F, skip_ws_head by reflexivity.
  change (ch "," =? ch "}") with false. change (ch "," =? ch ",") with true.
  cbv iota.
  rewrite S2, object_items_step, K2, skip_ws_head by reflexivity.
  change (ch ":" =? ch ":") with true. cbv iota.
  rewrite S3. reflexivity.
Qed.

End RequestBodyFacts.

(** ** Which bodies the response step accepts *)

Lemma single_char_below (c : N) : c < 128 -> single_char_ok c = true.
Proof. apply (forall_below single_char_ok 128). vm_compute. reflexivity. Qed.

Lemma single_char_above (c : N) :
  128 <= c -> exists e, JSONDecoder.loads (PStr [c]) = inl e.
Proof.
  intros Hc. cbn [JSONDecoder.loads JSONDecoder.starts_with_bom].
  destruct (c =? 65279); [eexists; reflexivity |].
  unfold JSONDecoder.decode. cbn [JSONDecoder.skip_ws].
  destruct (JSONDecoder.is_ws c); [eexists; reflexivity |].
  assert (forall k, k < 128 -> (c =? k) = false) as Hne
    by (intros k Hk; apply N.eqb_neq; lia).
  assert (forall k, k < 128 -> (k =? c) = false) as Hne'
    by (intros k Hk; apply N.eqb_neq; lia).
  assert (JSONDecoder.is_digit c = false) as Hd.
  { unfold JSONDecoder.is_digit. apply andb_false_iff. right.
    apply N.leb_gt. change (ch "9") with 57. lia. }
  change (2 * List.length [c] + 1)%nat with 3%nat.
  cbn [JSONDecoder.scan_once].
  rewrite !Hne by reflexivity.
  unfold JSONDecoder.match_number, JSONDecoder.match_integer.
  rewrite !Hne by reflexivity. rewrite Hd.
  unfold JSONDecoder.match_constant.
  cbn [lit map list_ascii_of_string strip_prefix].
  repeat match goal with
         | |- context [if ?b then None else None] => destruct b
         end;
    eexists; reflexivity.
Qed.

(** A text of one character is JSON exactly when the character is a
    digit. *)
Lemma loads_single_char (c : N) :
  (exists v, JSONDecoder.loads (PStr [c]) = inr v) <-> JSONDecoder.is_digit c = true.
Proof.
  destruct (N.ltb_spec c 128) as [Hlt | Hge].
  - pose proof (single_char_below c Hlt) as H. unfold single_char_ok in H.
    apply Bool.eqb_prop in H.
    destruct (JSONDecoder.loads (PStr [c])) as [e | v]; rewrite <- H; split;
      try discriminate; eauto.
    intros [v Hv]. discriminate.
  - destruct (single_char_above c Hge) as [e He]. rewrite He. split.
    + intros [v Hv]. discriminate.
    + unfold JSONDecoder.is_digit. intros H. apply andb_prop in H.
      destruct H as [_ H]. apply N.leb_le in H. change (ch "9") with 57 in H. lia.
Qed.

(** X9.  The response step returns exactly for the bodies of the
    expected shape and for the bodies that are a JSON string starting
    with a digit; it raises the [ValueError] for every other body.  For
    a string body it returns the digit alone. *)
Theorem accepted_bodies (r : response) :
  ((exists v, parse_response r = inr v)
   <-> expected_shape (text r) = true \/ digit_string_shape (text r) = true)
  /\ (forall (c : N) (s : str),
         JSONDecoder.loads (PStr (text r)) = inr (PStr (c :: s)) ->
         JSONDecoder.is_digit c = true ->
         parse_response r = inr (PStr [c])).
Proof.
  split.
  - rewrite parse_response_cases. unfold expected_shape, digit_string_shape.
    destruct (JSONDecoder.loads (PStr (text r))) as [e | parsed].
    { split; [intros [v H]; discriminate | intros [H | H]; discriminate]. }
    destruct parsed as [| b | z | l | s | [| first rest] | d]; cbn [getitem0];
      try (split; [intros [v H]; discriminate | intros [H | H]; discriminate]).
    + destruct s as [| c s];
        [split; [intros [v H]; discriminate | intros [H | H]; discriminate] |].
      pose proof (loads_single_char c) as Hc.
      destruct (JSONDecoder.loads (PStr [c])) as [e | v].
      * split; [intros [v H]; discriminate |].
        intros [H | H]; [discriminate |].
        apply Hc in H. destruct H as [v H]. discriminate.
      * split; [intros _; right; apply Hc; eauto | eauto].
    + destruct first as [| b | z | l | s | items | d];
        try (split; [intros [v H]; discriminate | intros [H | H]; discriminate]).
      destruct (JSONDecoder.loads (PStr s)) as [e | v].
      * split; [intros [v H]; discriminate | intros [H | H]; discriminate].
      * split; eauto.
  - intros c s Hbody Hd. rewrite parse_response_cases, Hbody. cbn [getitem0].
    apply loads_single_char in Hd. destruct Hd as [v ->]. reflexivity.
Qed.

(** ** The payload a server reads *)

Lemma plain_json_app (s t : str) :
  forallb plain_json s = true -> forallb plain_json t = true ->
  forallb plain_json (s ++ t) = true.
Proof. intros Hs Ht. rewrite forallb_app, Hs, Ht. reflexivity. Qed.

Lemma image_field_plain (content : bytes) :
  forallb plain_json (lit "b'" ++ decode_ascii (Base64.b64encode content) ++ lit "'")
  = true.
Proof.
  apply plain_json_app; [reflexivity |]. apply plain_json_app; [| reflexivity].
  apply b64_text_plain_json, Base64Facts.b64encode_b64char.
Qed.

(** [json.loads] of the text of [scan_request_body]. *)
Lemma loads_request_body (w1 w2 w3 field : str) :
  forallb JSONDecoder.is_ws w1 = true -> forallb JSONDecoder.is_ws w2 = true ->
  forallb JSONDecoder.is_ws w3 = true -> forallb plain_json field = true ->
  JSONDecoder.loads
    (PStr (ch "[" :: ch "{" :: DQUOTE :: lit "image_in_base64" ++ DQUOTE :: ch ":" :: w1
           ++ DQUOTE :: field ++ DQUOTE :: ch "," :: w2
           ++ DQUOTE :: lit "parameters" ++ DQUOTE :: ch ":" :: w3 ++ lit "{}}]"))
  = inr (PList [PDict [(lit "image_in_base64", PStr field);
                       (lit "parameters", PDict [])]]).
Proof.
  intros H1 H2 H3 Hf.
  cbn [JSONDecoder.loads JSONDecoder.starts_with_bom].
  change (ch "[" =? 65279) with false. cbv iota.
  unfold JSONDecoder.decode.
  rewrite RequestBodyFacts.skip_ws_head by reflexivity.
  match goal with
  | |- context [JSONDecoder.scan_once (2 * List.length (_ :: _ :: _ :: ?t) + 1)%nat _] =>
      replace (2 * List.length (ch "[" :: ch "{" :: DQUOTE :: t) + 1)%nat
        with (6 + (2 * List.length t + 1))%nat by (cbn [List.length]; lia)
  end.
  rewrite RequestBodyFacts.scan_request_body by assumption.
  reflexivity.
Qed.

Section PayloadFacts.

Variable floatstr : str -> str.

(** [json.loads] undoes [json.dumps] on the payload of a call without
    parameters. *)
Lemma loads_dumps_payload (content : bytes) :
  JSONDecoder.loads
    (PStr (JSONEncoder.dumps floatstr
             (PList [PDict [(lit "image_in_base64",
                             PStr (format_0 (Base64.b64encode content)));
                            (lit "parameters", PDict [])]])))
  = inr (PList [PDict [(lit "image_in_base64",
                        PStr (format_0 (Base64.b64encode content)));
                       (lit "parameters", PDict [])]]).
Proof.
  rewrite dumps_payload. unfold format_0.
  rewrite (Base64Facts.bytes_repr_b64 _ (Base64Facts.b64encode_b64char content)).
  rewrite <- (loads_request_body [ch " "] [ch " "] [ch " "]
                (lit "b'" ++ decode_ascii (Base64.b64encode content) ++ lit "'"))
    by (try reflexivity; apply image_field_plain).
  do 2 f_equal. repeat rewrite <- app_assoc. reflexivity.
Qed.

(** X7.  With an empty [parameters] dict, [json.loads] of the request
    body gives back the payload: a list of one dict that maps
    [image_in_base64] to the field and [parameters] to an empty dict. *)
Theorem request_body_round_trip (service_endpoint_url : str)
    (service_key : option str) (content : bytes) :
  JSONDecoder.loads
    (PStr (data (request_for floatstr service_endpoint_url service_key content
                   (PDict []))))
  = inr (PList [PDict [(lit "image_in_base64",
                        PStr (format_0 (Base64.b64encode content)));
                       (lit "parameters", PDict [])]]).
Proof. unfold request_for, data. apply loads_dumps_payload. Qed.

(** X8.  The body of the C# example and the body of the Python function
    called without parameters hold the same payload for every file
    content: [json.loads] gives the same value for both. *)
Theorem csharp_example_same_payload (service_endpoint_url : str)
    (service_key : option str) (content : bytes) :
  JSONDecoder.loads (PStr (CSharpExample.json content))
  = JSONDecoder.loads
      (PStr (data (request_for floatstr service_endpoint_url service_key content
                     (PDict []))))
  /\ JSONDecoder.loads (PStr (CSharpExample.json content))
     = inr (PList [PDict [(lit "image_in_base64",
                           PStr (lit "b'" ++ decode_ascii (Base64.b64encode content)
                                 ++ lit "'"));
                          (lit "parameters", PDict [])]]).
Proof.
  assert (JSONDecoder.loads (PStr (CSharpExample.json content))
          = inr (PList [PDict [(lit "image_in_base64",
                                PStr (lit "b'" ++ decode_ascii (Base64.b64encode content)
                                      ++ lit "'"));
                               (lit "parameters", PDict [])]])) as H.
  { rewrite <- (loads_request_body [] [] []
                  (lit "b'" ++ decode_ascii (Base64.b64encode content) ++ lit "'"))
      by (try reflexivity; apply image_field_plain).
    do 2 f_equal. unfold CSharpExample.json, CSharpExample.write_string,
      CSharpExample.ToBase64String. cbv zeta.
    fold (Base64.b64encode content).
    assert (forall s, forallb plain_json s = true ->
                      flat_map CSharpExample.escape_char s = s) as Hesc.
    { induction s as [| c s IH]; [reflexivity |].
      cbn [forallb flat_map]. intros Hs. apply andb_prop in Hs.
      destruct Hs as [Hc Hs]. rewrite (IH Hs). unfold plain_json in Hc.
      repeat (apply andb_prop in Hc; destruct Hc as [Hc ?]).
      repeat match goal with
             | H : negb _ = true |- _ => apply negb_true_iff in H
             end.
      apply N.leb_le in Hc. change (ch " ") with 32 in Hc.
      match goal with H : (c <=? ch "~") = true |- _ =>
        apply N.leb_le in H; change (ch "~") with 126 in H end.
      unfold CSharpExample.escape_char.
      repeat match goal with
             | |- context [c =? ?k] =>
                 replace (c =? k) with false
                   by (symmetry; first [assumption | apply N.eqb_neq; lia])
             end.
      replace (c <? ch " ") with false
        by (symmetry; apply N.ltb_ge; change (ch " ") with 32; lia).
      reflexivity. }
    rewrite (Hesc _ (image_field_plain content)).
    change (flat_map CSharpExample.escape_char (lit "image_in_base64"))
      with (lit "image_in_base64").
    change (flat_map CSharpExample.escape_char (lit "parameters"))
      with (lit "parameters").
    repeat rewrite <- app_assoc. reflexivity. }
  split; [| exact H].
  rewrite H. unfold request_for, data. rewrite loads_dumps_payload. unfold format_0.
  rewrite (Base64Facts.bytes_repr_b64 _ (Base64Facts.b64encode_b64char content)).
  reflexivity.
Qed.

End PayloadFacts.

(** ** Calls do not influence each other *)

Section IndependenceFacts.

Variable floatstr : str -> str.

Lemma score_events_heap (w : World) (image service_endpoint_url : str)
    (service_key : option str) (parameters : option loc) (st st' : state) :
  heap st' = heap st ->
  events_of (score_image_with_http floatstr w image service_endpoint_url
               service_key parameters) st'
  = events_of (score_image_with_http floatstr w image service_endpoint_url
                 service_key parameters) st.
Proof. intros H. rewrite !score_events, H. reflexivity. Qed.

(** X10.  The function keeps nothing between calls: the events of a
    sequence of calls are the events each call has on its own in the
    starting state, one after the other, whatever the earlier calls
    returned or raised. *)
Theorem calls_are_independent (cs : list call) (st : state) :
  trace (run_calls floatstr cs st)
  = trace st
    ++ flat_map (fun c =>
                   events_of (score_image_with_http floatstr (call_world c)
                                (call_image c) (call_url c) (call_key c)
                                (call_parameters c)) st) cs.
Proof.
  revert st. induction cs as [| c cs IH]; intros st.
  - cbn [run_calls flat_map]. rewrite app_nil_r. reflexivity.
  - cbn [run_calls flat_map]. rewrite IH, score_trace, <- app_assoc.
    f_equal. f_equal. apply flat_map_ext. intros c'.
    apply score_events_heap, score_heap.
Qed.

End IndependenceFacts.

(** ** The request body is ASCII *)

Lemma pyval_nested_ind (P : pyval -> Prop) :
  P PNone -> (forall b, P (PBool b)) -> (forall z, P (PInt z)) ->
  (forall l, P (PFloat l)) -> (forall s, P (PStr s)) ->
  (forall items, Forall P items -> P (PList items)) ->
  (forall items, Forall (fun kv => P (snd kv)) items -> P (PDict items)) ->
  forall v, P v.
Proof.
  intros HN HB HI HF HS HL HD. fix IH 1. intros v.
  destruct v as [| b | z | l | s | items | items].
  - exact HN.
  - apply HB.
  - apply HI.
  - apply HF.
  - apply HS.
  - apply HL. induction items as [| x items IHl]; constructor; [apply IH | exact IHl].
  - apply HD. induction items as [| [k x] items IHl]; constructor;
      [apply IH | exact IHl].
Qed.

Lemma hexdigit_printable (n : N) : printable (hexdigit (N.land n 15)) = true.
Proof.
  apply (forall_below hexdigit_ok 16); [vm_compute; reflexivity |].
  change 15 with (N.ones 4). rewrite N.land_ones.
  apply N.mod_lt. discriminate.
Qed.

Lemma escape_printable (c : N) :
  forallb printable (JSONEncoder.ascii_escape_unichar c) = true.
Proof.
  unfold JSONEncoder.ascii_escape_unichar, JSONEncoder.hex4.
  destruct ((ch " " <=? c) && (c <=? ch "~") && negb (c =? BACKSLASH)
            && negb (c =? DQUOTE)) eqn:Hp.
  - apply andb_prop in Hp. destruct Hp as [Hp _].
    apply andb_prop in Hp. destruct Hp as [Hp _].
    cbn [forallb]. unfold printable. rewrite Hp. reflexivity.
  - repeat match goal with
           | |- context [if ?b then _ else _] => destruct b
           end;
      cbn [forallb app]; rewrite ?hexdigit_printable; reflexivity.
Qed.

Lemma encode_basestring_printable (s : str) :
  forallb printable (JSONEncoder.encode_basestring_ascii s) = true.
Proof.
  assert (forallb printable (flat_map JSONEncoder.ascii_escape_unichar s) = true) as H.
  { induction s as [| c s IH]; [reflexivity |].
    cbn [flat_map]. rewrite forallb_app, escape_printable, IH. reflexivity. }
  unfold JSONEncoder.encode_basestring_ascii. rewrite !forallb_app, H. reflexivity.
Qed.

Lemma string_of_uint_printable (d : Decimal.uint) :
  forallb printable (lit (NilEmpty.string_of_uint d)) = true.
Proof.
  unfold lit.
  induction d; cbn [NilEmpty.string_of_uint list_ascii_of_string map forallb];
    try reflexivity; rewrite IHd; reflexivity.
Qed.

Lemma int_repr_printable (z : Z) : forallb printable (JSONEncoder.int_repr z) = true.
Proof.
  unfold JSONEncoder.int_repr, NilZero.string_of_int.
  assert (forall d, forallb printable (lit (NilZero.string_of_uint d)) = true) as H.
  { intros d. unfold NilZero.string_of_uint.
    destruct d; try reflexivity; apply string_of_uint_printable. }
  destruct (Z.to_int z) as [d | d]; [apply H |].
  cbn [lit list_ascii_of_string map forallb]. fold (lit (NilZero.string_of_uint d)).
  rewrite H. reflexivity.
Qed.

Lemma join_printable (sep : str) (parts : list str) :
  forallb printable sep = true ->
  Forall (fun p => forallb printable p = true) parts ->
  forallb printable (join sep parts) = true.
Proof.
  intros Hsep Hparts. induction Hparts as [| p ps Hp Hps IH]; [reflexivity |].
  cbn [join]. destruct ps as [| q ps]; [exact Hp |].
  rewrite !forallb_app, Hp, Hsep, IH. reflexivity.
Qed.

Section AsciiFacts.

Variable floatstr : str -> str.
Hypothesis floatstr_printable : forall l, forallb printable (floatstr l) = true.

Lemma dumps_printable (v : pyval) :
  forallb printable (JSONEncoder.dumps floatstr v) = true.
Proof.
  induction v as [| b | z | l | s | items IH | items IH] using pyval_nested_ind;
    cbn [JSONEncoder.dumps].
  - reflexivity.
  - destruct b; reflexivity.
  - apply int_repr_printable.
  - apply floatstr_printable.
  - apply encode_basestring_printable.
  - rewrite !forallb_app. rewrite join_printable; [reflexivity | reflexivity |].
    apply Forall_map. exact IH.
  - rewrite !forallb_app. rewrite join_printable; [reflexivity | reflexivity |].
    apply Forall_map. apply Forall_impl with (2 := IH). intros [k x] Hx.
    cbn [fst snd] in *. rewrite !forallb_app, encode_basestring_printable, Hx.
    reflexivity.
Qed.

(** X11.  When floats are written in ASCII, the body of a request is
    printable ASCII whatever the file holds and whatever strings the
    parameters hold: [json.dumps] escapes every other character. *)
Theorem request_body_ascii (service_endpoint_url : str) (service_key : option str)
    (content : bytes) (p : pyval) :
  forallb printable
    (data (request_for floatstr service_endpoint_url service_key content p)) = true.
Proof. unfold request_for, data. apply dumps_printable. Qed.

End AsciiFacts.

(** * Part IV: the cell that prints the detections *)

Module DetectionCellFacts.
Import DetectionCell.

Local Open Scope nat_scope.

Lemma getitem_setitem_same (d : list (Z * str)) (k : Z) (v : str) :
  getitem (setitem d k v) k = inr v.
Proof.
  induction d as [| [k' v'] d IH]; cbn [setitem getitem].
  - rewrite Z.eqb_refl. reflexivity.
  - destruct (Z.eqb k' k) eqn:E; cbn [getitem]; rewrite E; [reflexivity | exact IH].
Qed.

Lemma getitem_setitem_other (d : list (Z * str)) (k k' : Z) (v : str) :
  k' <> k -> getitem (setitem d k v) k' = getitem d k'.
Proof.
  intros Hk. induction d as [| [k0 v0] d IH]; cbn [setitem getitem].
  - replace (Z.eqb k k') with false by (symmetry; apply Z.eqb_neq; congruence).
    reflexivity.
  - destruct (Z.eqb k0 k) eqn:E; cbn [getitem].
    + apply Z.eqb_eq in E. subst k0.
      replace (Z.eqb k k') with false by (symmetry; apply Z.eqb_neq; congruence).
      reflexivity.
    + destruct (Z.eqb k0 k'); [reflexivity | exact IH].
Qed.

Lemma fold_setitem_absent (class_map : list (str * Z)) (d : list (Z * str)) (v : Z) :
  ~ In v (map snd class_map) ->
  getitem (fold_left (fun d kv => setitem d (snd kv) (fst kv)) class_map d) v
  = getitem d v.
Proof.
  revert d. induction class_map as [| [k0 v0] class_map IH]; intros d Hv.
  - reflexivity.
  - cbn [fold_left fst snd map In] in *. rewrite IH by tauto.
    apply getitem_setitem_other. intros E. apply Hv. left. congruence.
Qed.

(** X12.  The inverted dict sends a class number to the label of the
    last item of [class_map] that has this number, and raises
    [KeyError] for a number no item has; when no two labels share a
    number, it sends the number of every label back to the label. *)
Theorem invert_lookup :
  (forall (before after : list (str * Z)) (k : str) (v : Z),
      ~ In v (map snd after) ->
      getitem (invert (before ++ (k, v) :: after)) v = inr k)
  /\ (forall (class_map : list (str * Z)) (v : Z),
         ~ In v (map snd class_map) ->
         getitem (invert class_map) v = inl KeyError)
  /\ (forall class_map : list (str * Z),
         NoDup (map snd class_map) ->
         forall (k : str) (v : Z),
           In (k, v) class_map -> getitem (invert class_map) v = inr k).
Proof.
  assert (forall (before after : list (str * Z)) (k : str) (v : Z),
             ~ In v (map snd after) ->
             getitem (invert (before ++ (k, v) :: after)) v = inr k) as Hlast.
  { intros before after k v Hv. unfold invert.
    rewrite fold_left_app. cbn [fold_left fst snd].
    rewrite fold_setitem_absent by exact Hv. apply getitem_setitem_same. }
  split; [exact Hlast | split].
  - intros class_map v Hv. unfold invert. rewrite fold_setitem_absent by exact Hv.
    reflexivity.
  - intros class_map Hnd k v Hin.
    apply in_split in Hin. destruct Hin as (before & after & ->).
    apply Hlast. rewrite map_app in Hnd. cbn [map snd] in Hnd.
    apply NoDup_remove_2 in Hnd. intros Hv. apply Hnd, in_or_app. right. exact Hv.
Qed.

Section CellFacts.

Variable float : Type.
Variable above_half : float -> bool.
Variable format_object :
  nat -> str -> float -> float -> float -> float -> float -> str.
Variable format_found : nat -> str -> str.

Lemma loop_completes (look_up : list (Z * str)) (d : detections float)
    (indices : list nat) :
  forall (n_obj : nat) (printed : list str),
    forallb (printable_detection above_half format_object look_up d) indices = true ->
    loop above_half format_object look_up d indices n_obj printed
    = (printed ++ map (line_of format_object look_up d) (selected above_half d indices),
       n_obj + List.length (selected above_half d indices), None).
Proof.
  induction indices as [| i indices IH]; intros n_obj printed H.
  - cbn [loop selected filter map List.length]. rewrite app_nil_r, Nat.add_0_r.
    reflexivity.
  - cbn [forallb] in H. apply andb_prop in H. destruct H as [Hi H].
    unfold printable_detection in Hi. cbn [loop]. unfold DetectionCell.selected.
    cbn [filter]. unfold index.
    destruct (nth_error (detection_scores d) i) as [score |]; [| discriminate].
    destruct (above_half score).
    + destruct (object_line format_object look_up d i) as [e | line] eqn:El;
        [discriminate |].
      rewrite IH by exact H. cbn [map List.length].
      replace (line_of format_object look_up d i) with line
        by (unfold line_of; rewrite El; reflexivity).
      rewrite <- app_assoc. cbn [app].
      f_equal. f_equal. unfold DetectionCell.selected. lia.
    + rewrite IH by exact H. reflexivity.
Qed.





(** X15.  When no detection below [num_detections] scores above 0.5,
    the cell looks at neither classes, labels nor boxes: it prints the
    one line that reports 0 objects, whatever [class_map] and the other
    entries of [detections_dict] hold. *)
Theorem cell_nothing_above_half (class_map : list (str * Z)) (d : detections float)
    (image_path : str) :
  (forall i, i < num_detections d ->
             exists score, nth_error (detection_scores d) i = Some score
                           /\ above_half score = false) ->
  cell above_half format_object format_found class_map d image_path = ([format_found 0 image_path], 0, None).
Proof.
  intros H.
  assert (forall indices, (forall i, In i indices -> i < num_detections d) ->
            forallb (printable_detection above_half format_object (invert class_map) d) indices = true
            /\ selected above_half d indices = []) as Hall.
  { induction indices as [| i indices IH]; intros Hin; [split; reflexivity |].
    destruct (H i) as (score & Hs & Ha); [apply Hin; left; reflexivity |].
    destruct IH as [IH1 IH2]; [intros j Hj; apply Hin; right; exact Hj |].
    unfold DetectionCell.selected in *. cbn [forallb filter].
    unfold DetectionCell.printable_detection at 1. rewrite Hs, Ha, IH1, IH2.
    split; reflexivity. }
  destruct (Hall (seq 0 (num_detections d))) as [Hp Hs].
  { intros i Hi. apply in_seq in Hi. lia. }
  unfold DetectionCell.cell. rewrite (loop_completes _ _ _ 0 [] Hp), Hs. reflexivity.
Qed.

End CellFacts.

End DetectionCellFacts.

(** * Part V: the further statements at concrete cases *)

(** X1 at a server that cannot be reached. *)
Lemma transport_error_propagates_witness :
  fst (score_image_with_http Scenario.floatstr Cases.unreachable (lit "cat.jpg")
         Scenario.endpoint None None Scenario.initial)
  = inl (RequestException (lit "Connection refused"))
  /\ events_of (score_image_with_http Scenario.floatstr Cases.unreachable
                  (lit "cat.jpg") Scenario.endpoint None None) Scenario.initial
     = [Open (lit "cat.jpg"); Close (lit "cat.jpg");
        Send (request_for Scenario.floatstr Scenario.endpoint None Scenario.cat_jpg
                (heap Scenario.initial (parameters_object None)))].
Proof.
  apply (transport_error_propagates Scenario.floatstr Cases.unreachable
           (lit "cat.jpg") Scenario.endpoint None None Scenario.initial
           Scenario.cat_jpg (RequestException (lit "Connection refused")));
    reflexivity.
Defined.

(** X2 at the scenario. *)
Lemma file_closed_before_request_witness :
  [Open (lit "cat.jpg"); Close (lit "cat.jpg")]
  = [Open (lit "cat.jpg"); Close (lit "cat.jpg")]
  /\ left_open [Open (lit "cat.jpg"); Close (lit "cat.jpg")] [] = []
  /\ @nil event = [].
Proof.
  apply (file_closed_before_request Scenario.floatstr Scenario.world (lit "cat.jpg")
           Scenario.endpoint None None Scenario.initial
           [Open (lit "cat.jpg"); Close (lit "cat.jpg")] []
           (request_for Scenario.floatstr Scenario.endpoint None Scenario.cat_jpg
              (PDict []))).
  vm_compute. reflexivity.
Defined.

(** X5 at the octets 0 to 9, written in two ways. *)
Lemma request_body_injective_witness : Scenario.cat_jpg = MoreCases.ten_octets.
Proof.
  apply (request_body_injective Scenario.floatstr Scenario.endpoint Scenario.endpoint
           None None Scenario.cat_jpg MoreCases.ten_octets (PDict [])).
  vm_compute. reflexivity.
Defined.

(** X9 at the body ["1abc"]. *)
Lemma accepted_bodies_witness :
  parse_response {| status_code := 200; text := jlit "`1abc`" |}
  = inr (PStr [ch "1"]).
Proof.
  apply (proj2 (accepted_bodies {| status_code := 200; text := jlit "`1abc`" |})
               (ch "1") (lit "abc")); vm_compute; reflexivity.
Defined.

(** X11 at parameters that hold a string outside ASCII and a float. *)
Lemma request_body_ascii_witness :
  forallb printable
    (data (request_for MoreCases.floatstr_fixed Scenario.endpoint None
             Scenario.cat_jpg MoreCases.parameters_mixed)) = true.
Proof.
  apply (request_body_ascii MoreCases.floatstr_fixed).
  intros l. reflexivity.
Defined.

(** X12 at a map of two labels. *)
Lemma invert_lookup_witness :
  DetectionCell.getitem (DetectionCell.invert MoreCases.class_map) 2%Z
  = inr (lit "pear").
Proof.
  apply (proj2 (proj2 DetectionCellFacts.invert_lookup) MoreCases.class_map).
  - repeat constructor; cbn; intuition discriminate.
  - right. left. reflexivity.
Defined.


(** X15 at two detections below 0.5. *)
Lemma cell_nothing_above_half_witness :
  DetectionCell.cell MoreCases.above_half MoreCases.format_object
    MoreCases.format_found MoreCases.class_map MoreCases.faint (lit "eval.jpg")
  = ([MoreCases.format_found 0 (lit "eval.jpg")], 0%nat, None).
Proof.
  apply (DetectionCellFacts.cell_nothing_above_half Z MoreCases.above_half
           MoreCases.format_object MoreCases.format_found).
  intros i Hi. cbn in Hi.
  destruct i as [| [| i]].
  - exists 10%Z. split; reflexivity.
  - exists 20%Z. split; reflexivity.
  - exfalso. apply (Nat.lt_irrefl 2). apply (Nat.le_lt_trans _ (S (S i))); [| exact Hi].
    apply le_n_S, le_n_S, Nat.le_0_l.
Defined.
